(** * CinemaScope pipeline: cleaner, trainer, dashboard aggregates, fetch gate

    A shallow embedding of the four scripts of the repository
    ([get_data.py], [data_processing.py], [train_rf_model.py],
    [dashboard.py]).  A pandas DataFrame is an ordered list of named, typed
    columns; every statement of the Python code that touches the frame
    becomes one frame operation below.

    Numbers: a float64 is [NaN], a signed infinity or a finite rational.
    Rounding, overflow and the sign of zero are not modelled, so finite
    arithmetic is exact. *)

From Stdlib Require Import QArith Qcanon Ascii String.
From stdpp Require Import base numbers list strings pretty gmap sorting.

Open Scope Qc_scope.

(** ** float64 values *)

Inductive float64 :=
| NaN
| Inf (neg : bool)
| Fin (q : Qc).

#[global] Instance float64_eq_dec : EqDecision float64.
Proof. solve_decision. Defined.

Definition is_neg (q : Qc) : bool := bool_decide (q < 0).

Definition fneg (x : float64) : float64 :=
  match x with
  | NaN => NaN
  | Inf s => Inf (negb s)
  | Fin q => Fin (- q)
  end.

Definition fadd (x y : float64) : float64 :=
  match x, y with
  | NaN, _ | _, NaN => NaN
  | Inf s, Inf t => if decide (s = t) then Inf s else NaN
  | Inf s, Fin _ | Fin _, Inf s => Inf s
  | Fin a, Fin b => Fin (a + b)
  end.

Definition fsub (x y : float64) : float64 := fadd x (fneg y).

Definition fmul (x y : float64) : float64 :=
  match x, y with
  | NaN, _ | _, NaN => NaN
  | Inf s, Inf t => Inf (xorb s t)
  | Inf s, Fin b | Fin b, Inf s =>
      if decide (b = 0) then NaN else Inf (xorb s (is_neg b))
  | Fin a, Fin b => Fin (a * b)
  end.

(** IEEE division: a finite non-zero value over zero is an infinity, zero
    over zero is NaN. *)
Definition fdiv (x y : float64) : float64 :=
  match x, y with
  | NaN, _ | _, NaN => NaN
  | Inf _, Inf _ => NaN
  | Inf s, Fin b => Inf (xorb s (is_neg b))
  | Fin _, Inf _ => Fin 0
  | Fin a, Fin b =>
      if decide (b = 0)
      then (if decide (a = 0) then NaN else Inf (is_neg a))
      else Fin (a / b)
  end.

Definition isnan (x : float64) : bool :=
  match x with NaN => true | _ => false end.

Definition of_int (z : Z) : float64 := Fin (Qc_of_Z z).

(** ** Cells, columns, frames *)

Record date := Date { year : Z; month : Z; day : Z }.

#[global] Instance date_eq_dec : EqDecision date.
Proof. solve_decision. Defined.

(** A Python value held in a frame cell.  [CDate None] is NaT; a missing
    value of an object column is [CFloat NaN], as pandas stores it. *)
Inductive cell :=
| CInt (z : Z)
| CFloat (x : float64)
| CBool (b : bool)
| CStr (s : string)
| CList (l : list string)
| CDate (d : option date).

#[global] Instance cell_eq_dec : EqDecision cell.
Proof. solve_decision. Defined.

#[global] Instance float64_countable : Countable float64.
Proof.
  refine (inj_countable'
    (fun x => match x with
              | NaN => inl ()
              | Inf s => inr (inl s)
              | Fin q => inr (inr q)
              end)
    (fun e => match e with
              | inl _ => NaN
              | inr (inl s) => Inf s
              | inr (inr q) => Fin q
              end) _).
  by intros [].
Defined.

#[global] Instance date_countable : Countable date.
Proof.
  refine (inj_countable'
    (fun d => (year d, month d, day d))
    (fun t => Date t.1.1 t.1.2 t.2) _).
  by intros [].
Defined.

#[global] Instance cell_countable : Countable cell.
Proof.
  refine (inj_countable'
    (fun c => match c with
              | CInt z => inl (inl z)
              | CFloat x => inl (inr x)
              | CBool b => inr (inl (inl b))
              | CStr s => inr (inl (inr s))
              | CList l => inr (inr (inl l))
              | CDate d => inr (inr (inr d))
              end)
    (fun e => match e with
              | inl (inl z) => CInt z
              | inl (inr x) => CFloat x
              | inr (inl (inl b)) => CBool b
              | inr (inl (inr s)) => CStr s
              | inr (inr (inl l)) => CList l
              | inr (inr (inr d)) => CDate d
              end) _).
  by intros [].
Defined.

Inductive int_width := W32 | W64.

#[global] Instance int_width_eq_dec : EqDecision int_width.
Proof. solve_decision. Defined.

Inductive column :=
| IntCol (w : int_width) (xs : list Z)
| FloatCol (xs : list float64)
| BoolCol (xs : list bool)
| DateCol (xs : list (option date))
| ObjCol (xs : list cell).

#[global] Instance column_eq_dec : EqDecision column.
Proof. solve_decision. Defined.

Inductive dtype := int32 | int64 | float64_t | bool_t | datetime64 | object_t.

#[global] Instance dtype_eq_dec : EqDecision dtype.
Proof. solve_decision. Defined.

Definition col_dtype (c : column) : dtype :=
  match c with
  | IntCol W32 _ => int32
  | IntCol W64 _ => int64
  | FloatCol _ => float64_t
  | BoolCol _ => bool_t
  | DateCol _ => datetime64
  | ObjCol _ => object_t
  end.

Definition cells (c : column) : list cell :=
  match c with
  | IntCol _ xs => CInt <$> xs
  | FloatCol xs => CFloat <$> xs
  | BoolCol xs => CBool <$> xs
  | DateCol xs => CDate <$> xs
  | ObjCol xs => xs
  end.

(** [df.columns] is the list of first components, in order. *)
Abbreviation frame := (list (string * column)).

Definition columns (df : frame) : list string := fst <$> df.

Inductive exn :=
| FileNotFoundError
| KeyError (k : string)
| TypeError
| ValueError
| AttributeError
| OverflowError.

Inductive result (A : Type) :=
| Ok (a : A)
| Raise (e : exn).
Arguments Ok {A} a.
Arguments Raise {A} e.

#[global] Instance exn_eq_dec : EqDecision exn.
Proof. solve_decision. Defined.

#[global] Instance result_eq_dec {A} `{EqDecision A} : EqDecision (result A).
Proof. solve_decision. Defined.

#[global] Instance result_ret : MRet result := fun _ a => Ok a.
#[global] Instance result_bind : MBind result := fun _ _ k r =>
  match r with
  | Ok a => k a
  | Raise e => Raise e
  end.

(** [s.endswith(suffix)] *)
Definition ends_with (suffix s : string) : bool :=
  bool_decide (list_ascii_of_string suffix `suffix_of` list_ascii_of_string s).

(** [df[name]] *)
Fixpoint get_col (name : string) (df : frame) : result column :=
  match df with
  | [] => Raise (KeyError name)
  | (n, c) :: df' => if decide (n = name) then Ok c else get_col name df'
  end.

(** [df[name] = c]: replaces the column in place when the name exists,
    appends it at the end otherwise. *)
Fixpoint set_col (name : string) (c : column) (df : frame) : frame :=
  match df with
  | [] => [(name, c)]
  | (n, c0) :: df' =>
      if decide (n = name) then (n, c) :: df' else (n, c0) :: set_col name c df'
  end.

(** [df.drop(columns=names)], called only with names present in the frame. *)
Definition drop_columns (names : list string) (df : frame) : frame :=
  filter (fun nc => fst nc ∉ names) df.

(** Row selection by a boolean mask, [df[mask]]. *)
Fixpoint select {A} (keep : list bool) (xs : list A) : list A :=
  match keep, xs with
  | k :: keep', x :: xs' =>
      if k then x :: select keep' xs' else select keep' xs'
  | _, _ => []
  end.

Definition col_select (keep : list bool) (c : column) : column :=
  match c with
  | IntCol w xs => IntCol w (select keep xs)
  | FloatCol xs => FloatCol (select keep xs)
  | BoolCol xs => BoolCol (select keep xs)
  | DateCol xs => DateCol (select keep xs)
  | ObjCol xs => ObjCol (select keep xs)
  end.

Definition select_rows (keep : list bool) (df : frame) : frame :=
  (fun nc => (fst nc, col_select keep (snd nc))) <$> df.

(** [len(df)] *)
Definition nrows (df : frame) : nat :=
  match df with
  | [] => 0%nat
  | (_, c) :: _ => length (cells c)
  end.

(** The tuple of values of row [i], one per column. *)
Definition row (df : frame) (i : nat) : list (option cell) :=
  (fun nc => cells (snd nc) !! i) <$> df.

Definition rows (df : frame) : list (list (option cell)) :=
  row df <$> seq 0 (nrows df).

(** A DataFrame is rectangular. *)
Definition rectangular (df : frame) : Prop :=
  Forall (fun nc => length (cells (snd nc)) = nrows df) df.

(** [df.duplicated()] with [keep='first']: a row is marked when an equal
    row occurs earlier; missing values compare equal to each other. *)
Fixpoint duplicated_from {A} `{EqDecision A} (seen xs : list A) : list bool :=
  match xs with
  | [] => []
  | x :: xs' => bool_decide (x ∈ seen) :: duplicated_from (x :: seen) xs'
  end.

Definition duplicated (df : frame) : list bool := duplicated_from [] (rows df).

(** [df.drop_duplicates()] *)
Definition drop_duplicates (df : frame) : frame :=
  select_rows (negb <$> duplicated df) df.

(** [xs.unique()]: the distinct values in order of first appearance. *)
Definition unique {A} `{EqDecision A} (xs : list A) : list A :=
  select (negb <$> duplicated_from [] xs) xs.

(** The number of rows a mask keeps. *)
Definition kept (m : list bool) : nat := length (select m m).

(** The rows of a list of columns, by position. *)
Definition rows_of (n : nat) (cs : list (list cell)) : list (list (option cell)) :=
  (fun i => (fun c => c !! i) <$> cs) <$> seq 0 n.

(** All columns have [n] rows. *)
Definition height (n : nat) (df : frame) : Prop :=
  Forall (fun nc => length (cells nc.2) = n) df.

(** ** Library functions the scripts call

    The values these return are fixed by pandas, numpy and the Python
    runtime, not by the repository; the development is parametric in them. *)
Class Externals := {
  (** [pd.to_datetime(column, errors='coerce')]: one date or NaT per value *)
  to_datetime : list cell -> list (option date);
  to_datetime_length : forall xs, length (to_datetime xs) = length xs;
  (** [str(x)], as applied by [astype(str)] *)
  py_str : cell -> string;
  (** the float64 [np.log1p] returns at a finite argument above -1 *)
  log1p_finite : Qc -> Qc;
  (** [ast.literal_eval(x)]; an exception for a malformed literal *)
  literal_eval : cell -> result cell;
  (** [RandomForestRegressor(random_state=42).fit(X, y).feature_importances_] *)
  rf_feature_importances : frame -> column -> result (list float64);
}.

(** ** data_processing.py *)

Section Cleaner.
Context `{Externals}.

(** [column.dt.<field>]: int32 when no value is NaT, float64 with NaN
    otherwise. *)
Definition dt_field (f : date -> Z) (c : column) : result column :=
  match c with
  | DateCol ds =>
      Ok (if forallb (fun d => bool_decide (is_Some d)) ds
          then IntCol W32 ((fun d => from_option f 0%Z d) <$> ds)
          else FloatCol ((fun d => from_option (of_int ∘ f) NaN d) <$> ds))
  | _ => Raise AttributeError
  end.

(** [column.astype(str)] *)
Definition astype_str (c : column) : column :=
  ObjCol ((fun x => CStr (py_str x)) <$> cells c).

(** [replace(0, np.nan)] on one value *)
Definition zero_to_nan (x : float64) : float64 :=
  if decide (x = Fin 0) then NaN else x.

(** [column.replace(0, np.nan)]: an integer column is upcast to float64
    only when it holds a zero. *)
Definition replace_zero_nan (c : column) : column :=
  match c with
  | IntCol w xs =>
      if bool_decide (0%Z ∈ xs)
      then FloatCol ((fun z => zero_to_nan (of_int z)) <$> xs)
      else IntCol w xs
  | FloatCol xs => FloatCol (zero_to_nan <$> xs)
  | _ => c
  end.

(** The values of a numeric column as floats; arithmetic on any other
    column raises. *)
Definition as_floats (c : column) : result (list float64) :=
  match c with
  | IntCol _ xs => Ok (of_int <$> xs)
  | FloatCol xs => Ok xs
  | _ => Raise TypeError
  end.

(** [(revenue - budget) / budget], element by element *)
Definition roi_column (revenue budget : column) : result column :=
  r ← as_floats revenue;
  b ← as_floats budget;
  Ok (FloatCol (zip_with fdiv (zip_with fsub r b) b)).

(** [df.select_dtypes(include=[np.number]).columns] *)
Definition is_number (t : dtype) : bool :=
  match t with
  | int32 | int64 | float64_t => true
  | _ => false
  end.

Definition numeric_vars (df : frame) : list string :=
  fst <$> filter (fun nc => is_number (col_dtype (snd nc))) df.

(** *** Sample skew

    [Series.skew(skipna=True)] is
    [n * sqrt(n-1) / (n-2) * m3 / m2**1.5] with [m2], [m3] the sums of the
    squared and cubed deviations from the mean, NaN for fewer than three
    values and 0 when [m2] is 0 after sums below 1e-14 in magnitude are
    zeroed.  The test [abs(skew) > 1] is taken on the squares, which keeps
    it rational. *)
Definition sum_Qc (qs : list Qc) : Qc := foldr Qcplus 0 qs.

Definition finite_part (x : float64) : option Qc :=
  match x with Fin q => Some q | _ => None end.

Definition Qc_abs (q : Qc) : Qc := if decide (q < 0) then - q else q.

Definition zero_out_fperr (q : Qc) : Qc :=
  if decide (Qc_abs q < Q2Qc (1 # 100000000000000)) then 0 else q.

Definition abs_skew_gt_1 (xs : list float64) : bool :=
  match mapM finite_part (filter (fun x => isnan x = false) xs) with
  | None => false
  | Some qs =>
      let n := Qc_of_Z (Z.of_nat (length qs)) in
      if bool_decide (length qs < 3)%nat then false else
      let mean := sum_Qc qs / n in
      let m2 := zero_out_fperr (sum_Qc ((fun q => (q - mean) ^ 2) <$> qs)) in
      let m3 := zero_out_fperr (sum_Qc ((fun q => (q - mean) ^ 3) <$> qs)) in
      if decide (m2 = 0) then false
      else bool_decide ((n - 2) ^ 2 * m2 ^ 3 < n ^ 2 * (n - 1) * m3 ^ 2)
  end.

(** [abs(column.skew(skipna=True)) > 1] *)
Definition col_skewed (c : column) : bool :=
  match as_floats c with
  | Ok xs => abs_skew_gt_1 xs
  | Raise _ => false
  end.

(** [[col for col in numeric_vars if col not in ['id', 'popularity']
      and abs(df[col].skew(skipna=True)) > 1]] *)
Definition skewed_cols (df : frame) : list string :=
  filter (fun col => bool_decide (col ∉ ["id"; "popularity"])
                     && match get_col col df with
                        | Ok c => col_skewed c
                        | Raise _ => false
                        end)
         (numeric_vars df).

(** *** log1p companion *)

(** [x.clip(lower=0)] *)
Definition clip_lower0 (x : float64) : float64 :=
  match x with
  | NaN => NaN
  | Inf true => Fin 0
  | Inf false => Inf false
  | Fin q => if decide (q < 0) then Fin 0 else Fin q
  end.

(** [np.log1p]: NaN below -1, minus infinity at -1 *)
Definition np_log1p (x : float64) : float64 :=
  match x with
  | NaN => NaN
  | Inf true => NaN
  | Inf false => Inf false
  | Fin q =>
      if decide (q < -1) then NaN
      else if decide (q = -1) then Inf true
      else Fin (log1p_finite q)
  end.

(** [np.log1p(column.clip(lower=0))] *)
Definition log1p_clip (x : float64) : float64 := np_log1p (clip_lower0 x).

Definition log_companion (c : column) : result column :=
  xs ← as_floats c;
  Ok (FloatCol (log1p_clip <$> xs)).

(** [for col in skewed_cols: df[f"{col}_log"] = np.log1p(df[col].clip(lower=0))] *)
Fixpoint add_log_columns (cols : list string) (df : frame) : result frame :=
  match cols with
  | [] => Ok df
  | col :: rest =>
      c ← get_col col df;
      lc ← log_companion c;
      add_log_columns rest (set_col (col +:+ "_log") lc df)
  end.

(** *** Language names *)

Definition lang_representation : list string :=
  [ "English"; "Japanese"; "French"; "Chinese(Simplified)"; "German"; "Spanish";
    "Chinese(Traditional)"; "Serbo-Croatian";
    "Arabic"; "Italian"; "Russian"; "Korean"; "Persian"; "Hindi"; "Polish";
    "Telugu"; "Tamil";
    "Finnish"; "Greek"; "Swedish"; "Dutch"; "Czech"; "Malayalam"; "Tagalog";
    "Kannada"; "Slovak";
    "Vietnamese"; "Danish"; "Hungarian"; "Macedonian"; "Serbian"; "Thai";
    "Norwegian"; "Turkish";
    "Portuguese"; "Urdu"; "Hebrew"; "Bengali"; "Tibetan"; "Bosnian"; "Unknown";
    "Tswana"; "Kurdish";
    "Romanian"; "Ukrainian"; "Punjabi"; "Lithuanian"; "Icelandic"; "Indonesian";
    "Afrikaans";
    "Estonian"; "Marathi"; "Khmer"; "Galician"; "Sinhala"; "Basque";
    "Azerbaijani"; "Albanian";
    "Dzongkha"; "Mongolian"; "Irish"; "Hiri Motu"; "Ido"; "Catalan"; "Kikuyu";
    "Latvian"; "Malay";
    "Odia"; "Georgian" ].

(** [dict(pairs)]: later pairs overwrite earlier ones with the same key. *)
Definition py_dict {K V} `{Countable K} (pairs : list (K * V)) : gmap K V :=
  foldl (fun d kv => <[kv.1 := kv.2]> d) ∅ pairs.

(** [dict(zip(tuple(codes.unique()), lang_representation))] *)
Definition language_map (codes : list cell) : gmap cell string :=
  py_dict (zip (unique codes) lang_representation).

(** [codes.map(language_map).fillna(codes)] *)
Definition language_name (codes : list cell) : list cell :=
  let m := language_map codes in
  (fun c => match m !! c with
            | Some name => CStr name
            | None => c
            end) <$> codes.

(** *** The transformation of the loaded frame (lines 27 to 62) *)

Definition drop_cols : list string :=
  ["original_title"; "overview"; "adult"; "spoken_languages"; "original_language"].

(** Lines 27 to 38: deduplication, calendar fields, identifier, roi. *)
Definition enrich (df : frame) : result frame :=
  let df := drop_duplicates df in
  rd ← get_col "release_date" df;
  let df := set_col "release_date" (DateCol (to_datetime (cells rd))) df in
  rd ← get_col "release_date" df;
  y ← dt_field year rd;
  let df := set_col "release_year" y df in
  rd ← get_col "release_date" df;
  m ← dt_field month rd;
  let df := set_col "release_month" m df in
  rd ← get_col "release_date" df;
  d ← dt_field day rd;
  let df := set_col "release_day" d df in
  idc ← get_col "id" df;
  let df := set_col "id" (astype_str idc) df in
  b ← get_col "budget" df;
  let df := set_col "budget" (replace_zero_nan b) df in
  r ← get_col "revenue" df;
  let df := set_col "revenue" (replace_zero_nan r) df in
  r ← get_col "revenue" df;
  b ← get_col "budget" df;
  roi ← roi_column r b;
  Ok (set_col "roi" roi df).

(** The columns [enrich] writes. *)
Definition enriched_names : list string :=
  ["release_date"; "release_year"; "release_month"; "release_day";
   "id"; "budget"; "revenue"; "roi"].

(** Lines 46 to 62: language names and the final column drop. *)
Definition finish (df : frame) : result frame :=
  ol ← get_col "original_language" df;
  let df := set_col "language_name" (ObjCol (language_name (cells ol))) df in
  Ok (drop_columns (filter (fun c => c ∈ columns df) drop_cols) df).

Definition clean (df : frame) : result (frame * list string) :=
  df ← enrich df;
  let skewed := skewed_cols df in
  df ← add_log_columns skewed df;
  df ← finish df;
  Ok (df, skewed).

(** *** Files and the log *)

Inductive log_record :=
| LogInfo (msg : string)
| LogError (msg : string).

(** The tables stored under each path, and the records logged so far. *)
Record world := World {
  files : gmap string frame;
  log : list log_record;
}.

Definition emit (r : log_record) (w : world) : world :=
  World (files w) (log w ++ [r]).

(** [df.to_csv(path, index=False)] *)
Definition to_csv (path : string) (df : frame) (w : world) : world :=
  World (<[path := df]> (files w)) (log w).

(** Paths are written relative to the project root. *)
Definition raw_file : string := "data/tmdb_movies_1990_2025.csv".
Definition clean_file : string := "data/tmdb_movies_cleaned.csv".

(** The elapsed time written into the second info record is not modelled;
    its place in the text is kept. *)
Definition load_and_process_data (w : world)
  : result (frame * list string) * world :=
  match files w !! raw_file with
  | None =>
      let w := emit (LogError ("File not found: " +:+ raw_file)) w in
      (Raise FileNotFoundError, w)
  | Some df =>
      let w := emit (LogInfo ("Loaded raw data from " +:+ raw_file)) w in
      let w := emit (LogInfo "Time taken to load raw CSV: {:.2f} seconds") w in
      match clean df with
      | Raise e => (Raise e, w)
      | Ok (df, skewed) =>
          let w := to_csv clean_file df w in
          let w := emit (LogInfo ("💾 Saved cleaned data to: " +:+ clean_file)) w in
          (Ok (df, skewed), w)
      end
  end.

End Cleaner.

(** ** train_rf_model.py *)

Section Trainer.
Context `{Externals}.

(** [pd.isna] on one value *)
Definition cell_isna (c : cell) : bool :=
  match c with
  | CFloat NaN | CDate None => true
  | _ => false
  end.

Definition col_has_na (c : column) : bool := existsb cell_isna (cells c).

(** [df.columns[df.isna().any()].tolist()] *)
Definition nan_cols (df : frame) : list string :=
  fst <$> filter (fun nc => col_has_na (snd nc)) df.

(** [df.dropna()]: keeps the rows without a missing value. *)
Definition dropna (df : frame) : frame :=
  select_rows
    ((fun r => negb (existsb (fun oc => from_option cell_isna false oc) r))
       <$> rows df)
    df.

(** [drop_cols = ['id', 'title', 'release_date', 'spoken_languages'] + skewed_cols] *)
Definition trainer_drop (skewed_cols : list string) : list string :=
  ["id"; "title"; "release_date"; "spoken_languages"] ++ skewed_cols.

(** Lines 29 to 43. *)
Definition prepare (df : frame) (skewed_cols : list string) : frame :=
  let drop_cols := trainer_drop skewed_cols in
  let df := drop_columns (filter (fun c => c ∈ columns df) drop_cols) df in
  if bool_decide (nan_cols df ≠ []) then dropna df else df.

(** [dtype in [int, float, bool]]: numpy reads the three Python types as
    int64, float64 and bool. *)
Definition is_feature_dtype (t : dtype) : bool :=
  match t with
  | int64 | float64_t | bool_t => true
  | _ => false
  end.

(** [[col for col in df.columns if col != 'popularity'
      and df[col].dtype in [int, float, bool]]] *)
Definition feature_cols (df : frame) : list string :=
  fst <$> filter (fun nc => bool_decide (fst nc ≠ "popularity")
                            && is_feature_dtype (col_dtype (snd nc))) df.

(** [df[names]] for a list of names *)
Definition get_cols (names : list string) (df : frame) : result frame :=
  mapM (fun n => c ← get_col n df; Ok (n, c)) names.

(** The order [sort_values(ascending=False)] sorts by: NaN last. *)
Definition float_rank_le (x y : float64) : Prop :=
  match x, y with
  | NaN, _ => True
  | _, NaN => False
  | Inf true, _ => True
  | _, Inf true => False
  | _, Inf false => True
  | Inf false, _ => False
  | Fin a, Fin b => a ≤ b
  end.

#[global] Instance float_rank_le_dec x y : Decision (float_rank_le x y).
Proof. destruct x as [|[]|], y as [|[]|]; simpl; apply _. Defined.

(** [pd.Series(values, index=names).sort_values(ascending=False)]; the
    order among equal values is left to the sort. *)
Definition importance_series (names : list string) (values : list float64)
  : result (list (string * float64)) :=
  if decide (length values = length names)
  then Ok (merge_sort (fun a b => float_rank_le (snd b) (snd a)) (zip names values))
  else Raise ValueError.

Definition importances_file : string := "data/feature_importances.csv".

(** The table [importances.to_csv(path, header=['importance'])] writes:
    the index, then the values. *)
Definition importances_frame (ser : list (string * float64)) : frame :=
  [("", ObjCol (CStr ∘ fst <$> ser)); ("importance", FloatCol (snd <$> ser))].

(** Lines 46 to 48: the feature names, [X] and [y]. *)
Definition design (df : frame) : result (list string * frame * column) :=
  let features := feature_cols df in
  X ← get_cols features df;
  y ← get_col "popularity" df;
  Ok (features, X, y).

(** Lines 51 to 56. *)
Definition importances (features : list string) (X : frame) (y : column)
  : result (list (string * float64)) :=
  imps ← rf_feature_importances X y;
  importance_series features imps.

(** The pure part of the script: the feature columns and the sorted
    importances computed from what the cleaner returned. *)
Definition train (df : frame) (skewed_cols : list string)
  : result (list string * list (string * float64)) :=
  d ← design (prepare df skewed_cols);
  ser ← importances d.1.1 d.1.2 d.2;
  Ok (d.1.1, ser).

(** The script, run once.  Formatted values in the log texts keep their
    placeholders. *)
Definition train_rf_model (w : world) : result unit * world :=
  let w := emit (LogInfo "Loading the data...") w in
  match load_and_process_data w with
  | (Raise e, w) => (Raise e, w)
  | (Ok (df, skewed_cols), w) =>
      let w := emit (LogInfo "Preparing the data for feature importance analysis...") w in
      let dropped :=
        drop_columns (filter (fun c => c ∈ columns df) (trainer_drop skewed_cols)) df in
      let w :=
        if bool_decide (nan_cols dropped ≠ [])
        then emit (LogInfo "Final data size: {df.shape}")
               (emit (LogInfo "Total rows dropped due to NaN values: {dropped_rows}")
                  (emit (LogInfo "Initial rows: {initial_rows}")
                     (emit (LogInfo "NaN values found in: {nan_cols}") w)))
        else emit (LogInfo "No columns with NaN values.") w in
      match design (prepare df skewed_cols) with
      | Raise e => (Raise e, w)
      | Ok (features, X, y) =>
          let w := emit (LogInfo "Fitting the model: {rf}") w in
          match importances features X y with
          | Raise e => (Raise e, w)
          | Ok ser =>
              let w := to_csv importances_file (importances_frame ser) w in
              let w := emit (LogInfo "Saved the Feature Importances to: data/feature_importances.csv") w in
              let w := emit (LogInfo "\nFeature Importances:\n{importances}") w in
              (Ok (), w)
          end
      end
  end.

End Trainer.

(** ** dashboard.py *)

Section Dashboard.
Context `{Externals}.

(** [Series.min()] and [Series.max()], missing values skipped; NaN when
    nothing is left. *)
Definition series_min (xs : list float64) : float64 :=
  foldr (fun x acc =>
           if isnan x then acc
           else if isnan acc then x
           else if decide (float_rank_le x acc) then x else acc) NaN xs.

Definition series_max (xs : list float64) : float64 :=
  foldr (fun x acc =>
           if isnan x then acc
           else if isnan acc then x
           else if decide (float_rank_le acc x) then x else acc) NaN xs.

(** [int(x)]: truncation towards zero. *)
Definition py_int (x : float64) : result Z :=
  match x with
  | NaN => Raise ValueError
  | Inf _ => Raise OverflowError
  | Fin q => Ok (Z.quot (Qnum q) (Z.pos (Qden q)))
  end.

(** [lambda x: ['Unknown'] if isinstance(x, list) and len(x) == 0 else x] *)
Definition unknown_if_empty (x : cell) : cell :=
  match x with
  | CList [] => CList ["Unknown"]
  | _ => x
  end.

(** The two [apply] calls on one list column (lines 16 and 17). *)
Definition parse_list_column (c : column) : result column :=
  xs ← mapM literal_eval (cells c);
  Ok (ObjCol (unknown_if_empty <$> xs)).

(** The loop of lines 14 to 17. *)
Fixpoint parse_list_columns (names : list string) (df : frame) : result frame :=
  match names with
  | [] => Ok df
  | col :: rest =>
      if decide (col ∈ columns df)
      then c ← get_col col df;
           c' ← parse_list_column c;
           parse_list_columns rest (set_col col c' df)
      else parse_list_columns rest df
  end.

Definition list_columns : list string :=
  ["genres"; "production_countries"; "spoken_languages"].

Record loaded := Loaded {
  l_df : frame;
  l_min_year : Z;
  l_max_year : Z;
}.

(** Lines 10 to 17, on the table read from the cleaned file. *)
Definition load (df : frame) : result loaded :=
  ry ← get_col "release_year" df;
  ys ← as_floats ry;
  min_year ← py_int (series_min ys);
  max_year ← py_int (series_max ys);
  df ← parse_list_columns list_columns df;
  Ok (Loaded df min_year max_year).


(** *** Yearly aggregates *)

(** The group keys of [groupby]: the distinct non-missing values, sorted. *)
Definition group_keys (keys : list float64) : list float64 :=
  merge_sort float_rank_le (unique (filter (fun k => isnan k = false) keys)).

(** [groupby(keys)[vals].agg()], as (key, aggregate) pairs *)
Definition groupby_agg (agg : list float64 -> float64) (keys vals : list float64)
  : list (float64 * float64) :=
  (fun k => (k, agg (snd <$> filter (fun kv => kv.1 = k) (zip keys vals))))
    <$> group_keys keys.

(** [groupby(...).size()] *)
Definition group_size (g : list float64) : float64 := of_int (Z.of_nat (length g)).

(** [groupby(...).mean()]: the mean of the non-missing values, NaN when
    there is none. *)
Definition fsum (xs : list float64) : float64 := foldl fadd (Fin 0) xs.

Definition group_mean (g : list float64) : float64 :=
  let vs := filter (fun x => isnan x = false) g in
  match vs with
  | [] => NaN
  | _ => fdiv (fsum vs) (of_int (Z.of_nat (length vs)))
  end.

(** [series.set_index('release_year').reindex(labels)]: the value stored
    under each label, NaN for a label without one. *)
Definition reindex (labels : list Z) (ser : list (float64 * float64)) : list float64 :=
  (fun y => match list_find (fun kv => kv.1 = of_int y) ser with
            | Some (_, (_, v)) => v
            | None => NaN
            end) <$> labels.

(** *** Linear interpolation

    [DataFrame.interpolate()] with its defaults (method linear, direction
    forward) works on positions: the missing positions are filled by
    [np.interp] over the valid ones, then the positions before the first
    valid one are set back to NaN. *)

Definition of_nat (n : nat) : float64 := of_int (Z.of_nat n).

(** The (position, value) pairs of the non-missing values, from position [i]. *)
Fixpoint valid_from (i : nat) (ys : list float64) : list (nat * float64) :=
  match ys with
  | [] => []
  | y :: ys' =>
      if isnan y then valid_from (S i) ys' else (i, y) :: valid_from (S i) ys'
  end.

(** numpy on one segment: the slope form, a second try from the right end
    when the first is NaN, and the common value of two equal ends. *)
Definition interp_segment (x : nat) (p p' : nat * float64) : float64 :=
  let slope := fdiv (fsub p'.2 p.2) (fsub (of_nat p'.1) (of_nat p.1)) in
  let r := fadd (fmul slope (fsub (of_nat x) (of_nat p.1))) p.2 in
  if isnan r then
    let r' := fadd (fmul slope (fsub (of_nat x) (of_nat p'.1))) p'.2 in
    if isnan r' && bool_decide (p.2 = p'.2) then p.2 else r'
  else r.

(** [np.interp] at [x], to the right of the point [p]; past the last point
    the last value is returned. *)
Fixpoint np_interp_from (x : nat) (p : nat * float64) (pts : list (nat * float64))
  : float64 :=
  match pts with
  | [] => p.2
  | p' :: rest =>
      if decide (x < p'.1)%nat
      then (if decide (x = p.1) then p.2 else interp_segment x p p')
      else np_interp_from x p' rest
  end.

Definition np_interp (x : nat) (pts : list (nat * float64)) : float64 :=
  match pts with
  | [] => NaN
  | p :: rest => if decide (x ≤ p.1)%nat then p.2 else np_interp_from x p rest
  end.

Definition interpolate (ys : list float64) : list float64 :=
  match valid_from 0 ys with
  | [] => ys
  | p0 :: rest =>
      imap (fun i y =>
              if isnan y
              then (if decide (i < p0.1)%nat then NaN else np_interp i (p0 :: rest))
              else y) ys
  end.

(** Positions strictly increasing from [p] on. *)
Fixpoint increasing (p : nat * float64) (pts : list (nat * float64)) : Prop :=
  match pts with
  | [] => True
  | p' :: rest => (p.1 < p'.1)%nat ∧ increasing p' rest
  end.

(** A value that is missing or finite. *)
Definition nan_or_finite (x : float64) : Prop := x = NaN ∨ exists q, x = Fin q.

(** [fillna(0)] *)
Definition fillna0 (y : float64) : float64 := if isnan y then Fin 0 else y.

Inductive metric := Releases | Revenue | Rating | Popularity | Runtime.

(** The column each entry of [yearly_data] averages; the release count
    needs none. *)
Definition metric_column (m : metric) : option string :=
  match m with
  | Releases => None
  | Revenue => Some "revenue"
  | Rating => Some "vote_average"
  | Popularity => Some "popularity"
  | Runtime => Some "runtime"
  end.

(** The grouped series of one entry of [yearly_data] (lines 21 to 25). *)
Definition grouped (df : frame) (m : metric) : result (list (float64 * float64)) :=
  ry ← get_col "release_year" df;
  keys ← as_floats ry;
  match metric_column m with
  | None => Ok (groupby_agg group_size keys keys)
  | Some name =>
      c ← get_col name df;
      vals ← as_floats c;
      Ok (groupby_agg group_mean keys vals)
  end.

(** [range(min_year, max_year + 1)] *)
Definition all_years (d : loaded) : list Z :=
  seqZ (l_min_year d) (l_max_year d + 1 - l_min_year d).

(** The series after [reindex(all_years)], after [interpolate()], and the
    final (year, value) rows after [fillna(0).reset_index()]
    (lines 27 to 36). *)
Definition reindexed (d : loaded) (m : metric) : result (list float64) :=
  g ← grouped (l_df d) m;
  Ok (reindex (all_years d) g).

Definition interpolated (d : loaded) (m : metric) : result (list float64) :=
  ys ← reindexed d m;
  Ok (interpolate ys).

Definition yearly_data (d : loaded) (m : metric) : result (list (Z * float64)) :=
  ys ← interpolated d m;
  Ok (zip (all_years d) (fillna0 <$> ys)).

(** *** The selection (lines 59 to 68) *)


(** *** Pie charts *)



(** [Series.explode()]: one row per list element, a missing value for an
    empty list, other values unchanged. *)
Definition explode (xs : list cell) : list cell :=
  xs ≫= fun x =>
    match x with
    | CList [] => [CFloat NaN]
    | CList l => CStr <$> l
    | _ => [x]
    end.

(** [Series.value_counts()]: the count of each distinct non-missing value,
    largest count first; the order among equal counts is left to the sort. *)
Definition count_ge (a b : cell * nat) : Prop := (b.2 ≤ a.2)%nat.

#[global] Instance count_ge_dec a b : Decision (count_ge a b).
Proof. unfold count_ge. apply _. Defined.

Definition value_counts (xs : list cell) : list (cell * nat) :=
  let vs := filter (fun x => cell_isna x = false) xs in
  merge_sort count_ge
    ((fun v => (v, length (filter (fun x => x = v) vs))) <$> unique vs).

Definition top_n : nat := 8.

(** [pd.concat([counts.head(top_n), pd.Series({'Other': counts[top_n:].sum()})])] *)
Definition with_other (counts : list (cell * nat)) : list (cell * nat) :=
  take top_n counts ++ [(CStr "Other", foldr Nat.add 0%nat (snd <$> drop top_n counts))].

(** [pie_data] and [pie_lang] (lines 237 to 241 and 252 to 256). *)
Definition pie_data (filtered_df : frame) : result (list (cell * nat)) :=
  g ← get_col "genres" filtered_df;
  Ok (with_other (value_counts (explode (cells g)))).

Definition pie_lang (filtered_df : frame) : result (list (cell * nat)) :=
  l ← get_col "language_name" filtered_df;
  Ok (with_other (value_counts (cells l))).

End Dashboard.

(** ** get_data.py: the gate of the enrichment pass

    [main] creates one [fetch_movie_details] coroutine per discovered
    movie, at most 20000, all sharing [asyncio.Semaphore(30)].  A coroutine
    waits at [async with semaphore]; inside the block it issues the request
    and reads the answer; it leaves the block with a record or with nothing.
    The event loop interleaves the coroutines in any order. *)
Module Gate.

Inductive reply :=
| Status200
| StatusOther (code : nat)
| TransportError.

Inductive task :=
| Waiting
| InFlight
| Returned (got_record : bool).

#[global] Instance task_eq_dec : EqDecision task.
Proof. solve_decision. Defined.

Record state := State {
  sem_value : nat;
  tasks : list task;
}.

Definition limit : nat := 30.
Definition ceiling : nat := Z.to_nat 20000.

(** [semaphore = asyncio.Semaphore(30)] and
    [[fetch_movie_details(...) for movie in total_movies[:20000]]] *)
Definition init {A} (total_movies : list A) : state :=
  State limit ((fun _ => Waiting) <$> take ceiling total_movies).

(** What the coroutine returns for each answer: a record on status 200,
    [None] after logging otherwise. *)
Definition outcome (r : reply) : bool :=
  match r with
  | Status200 => true
  | _ => false
  end.

Inductive step : state -> state -> Prop :=
| step_enter v ts i :
    ts !! i = Some Waiting ->
    (0 < v)%nat ->
    step (State v ts) (State (v - 1) (<[i := InFlight]> ts))
| step_leave v ts i r :
    ts !! i = Some InFlight ->
    step (State v ts) (State (v + 1) (<[i := Returned (outcome r)]> ts)).

(** The requests issued and not yet answered all belong to coroutines
    inside the block. *)
Definition outstanding (s : state) : nat :=
  length (filter (fun t => t = InFlight) (tasks s)).

End Gate.

(** ** get_data.py: requests, answers and the two passes

    The remote catalog is a parameter: one answer for each discovery
    request and one for each detail request.  An answer is a status with a
    decoded body, or a transport failure; the body is what [resp.json()]
    returns, and is absent when decoding raises. *)
Module Fetcher.

#[warnings="-register-all"] Inductive json :=
| JNull
| JBool (b : bool)
| JInt (z : Z)
| JFloat (x : float64)
| JStr (s : string)
| JArr (items : list json)
| JObj (fields : list (string * json)).

Inductive response :=
| Http (status : nat) (body : option json)
| TransportFailure.

(** The two log lines for a request that gave nothing: a status other
    than 200, or an exception caught by [except Exception]. *)
Inductive event :=
| Failed (status : nat)
| Errored.

(** The value stored under a key of a decoded object. *)
Fixpoint field (k : string) (fields : list (string * json)) : option json :=
  match fields with
  | [] => None
  | (k', v) :: rest => if decide (k' = k) then Some v else field k rest
  end.

(** [for x in v]: the items of a list, the keys of a dict, the characters
    of a string; other values are not iterable. *)
Definition py_iter (v : json) : result (list json) :=
  match v with
  | JArr items => Ok items
  | JObj fields => Ok (JStr <$> fields.*1)
  | JStr s => Ok ((fun c => JStr (String c EmptyString)) <$> list_ascii_of_string s)
  | _ => Raise TypeError
  end.

(** [v[k]] for a string [k] *)
Definition py_getitem (v : json) (k : string) : result json :=
  match v with
  | JObj fields =>
      match field k fields with
      | Some x => Ok x
      | None => Raise (KeyError k)
      end
  | _ => Raise TypeError
  end.

(** [v.get(k, d)] *)
Definition py_get (v : json) (k : string) (d : json) : result json :=
  match v with
  | JObj fields => Ok (default d (field k fields))
  | _ => Raise AttributeError
  end.

(** [session.get(...)] and [resp.json()].  The exceptions of the transport
    and of the decoder are not Python built-ins; they stand here as
    [ValueError], which the handler catches like any other. *)
Definition session_get (r : response) : result (nat * option json) :=
  match r with
  | Http status body => Ok (status, body)
  | TransportFailure => Raise ValueError
  end.

Definition resp_json (body : option json) : result json :=
  match body with
  | Some data => Ok data
  | None => Raise ValueError
  end.

(** [fetch_movies_page]: what the coroutine returns and what it logs. *)
Definition fetch_movies_page (r : response) : json * list event :=
  match (resp ← session_get r;
         if decide (resp.1 = 200%nat)
         then data ← resp_json resp.2;
              results ← py_get data "results" (JArr []);
              Ok (Some results, [])
         else Ok (None, [Failed resp.1])) with
  | Ok (Some results, evs) => (results, evs)
  | Ok (None, evs) => (JArr [], evs)
  | Raise _ => (JArr [], [Errored])
  end.

(** [[x['name'] for x in data.get(key, [])]] *)
Definition names (data : json) (key : string) : result json :=
  xs ← py_get data key (JArr []);
  items ← py_iter xs;
  ns ← mapM (fun x => py_getitem x "name") items;
  Ok (JArr ns).


(** The dict literal of [fetch_movie_details], evaluated left to right. *)
Definition details_record (data : json) : result (list (string * json)) :=
  id ← py_getitem data "id";
  title ← py_get data "title" JNull;
  original_title ← py_get data "original_title" JNull;
  overview ← py_get data "overview" JNull;
  release_date ← py_get data "release_date" JNull;
  original_language ← py_get data "original_language" JNull;
  popularity ← py_get data "popularity" JNull;
  vote_average ← py_get data "vote_average" JNull;
  vote_count ← py_get data "vote_count" JNull;
  adult ← py_get data "adult" JNull;
  genres ← names data "genres";
  runtime ← py_get data "runtime" JNull;
  budget ← py_get data "budget" JNull;
  revenue ← py_get data "revenue" JNull;
  production_countries ← names data "production_countries";
  spoken_languages ← names data "spoken_languages";
  Ok [ ("id", id); ("title", title); ("original_title", original_title);
       ("overview", overview); ("release_date", release_date);
       ("original_language", original_language); ("popularity", popularity);
       ("vote_average", vote_average); ("vote_count", vote_count); ("adult", adult);
       ("genres", genres); ("runtime", runtime); ("budget", budget);
       ("revenue", revenue); ("production_countries", production_countries);
       ("spoken_languages", spoken_languages) ].

(** [fetch_movie_details], inside the semaphore block: a record, or [None]
    after one log line. *)
Definition fetch_movie_details (r : response)
  : option (list (string * json)) * list event :=
  match (resp ← session_get r;
         if decide (resp.1 = 200%nat)
         then data ← resp_json resp.2;
              rec ← details_record data;
              Ok (Some rec, [])
         else Ok (None, [Failed resp.1])) with
  | Ok (found, evs) => (found, evs)
  | Raise _ => (None, [Errored])
  end.

(** The catalog: the answer to the discovery request for a year and a
    page, and to the detail request of the [i]-th task for an identifier. *)
Record catalog := Catalog {
  discover : Z -> nat -> response;
  details : nat -> json -> response;
}.

(** [range(1990, 2026)] and [range(1, 26)] *)
Definition years : list Z := seqZ 1990 36.
Definition pages : list nat := seq 1 25.

(** [for result in results: total_movies.extend(result)] *)
Fixpoint extend_all (total_movies : list json) (results : list json)
  : result (list json) :=
  match results with
  | [] => Ok total_movies
  | r :: rest => items ← py_iter r; extend_all (total_movies ++ items) rest
  end.

(** What the first pass has done so far: the list, the discovery requests
    issued, the log events. *)
Record pass1 := Pass1 {
  total_movies : result (list json);
  requested : list (Z * nat);
  logged : list event;
}.

(** The loop over the years (lines 95 to 101).  The events of one year are
    listed in task order; their order in the log file is the scheduler's. *)
Fixpoint discovery (c : catalog) (ys : list Z)
    (total : list json) (reqs : list (Z * nat)) (evs : list event) : pass1 :=
  match ys with
  | [] => Pass1 (Ok total) reqs evs
  | year :: rest =>
      let results := (fun page => fetch_movies_page (discover c year page)) <$> pages in
      let reqs := reqs ++ ((fun page => (year, page)) <$> pages) in
      let evs := evs ++ mjoin (snd <$> results) in
      match extend_all total (fst <$> results) with
      | Raise e => Pass1 (Raise e) reqs evs
      | Ok total =>
          if decide (Gate.ceiling ≤ length total)%nat
          then Pass1 (Ok total) reqs evs
          else discovery c rest total reqs evs
      end
  end.

(** The second pass (lines 106 to 112): the identifiers are read while the
    task list is built, before any detail request; a failed fetch leaves no
    record. *)
Definition enrichment (c : catalog) (total : list json)
  : result (list (list (string * json)) * list event) :=
  ids ← mapM (fun movie => py_getitem movie "id") (take Gate.ceiling total);
  let detailed_movies := imap (fun i id => fetch_movie_details (details c i id)) ids in
  Ok (omap fst detailed_movies, mjoin (snd <$> detailed_movies)).

(** [main]: the rows written to the output file. *)
Definition main (c : catalog) : result (list (list (string * json))) :=
  total ← total_movies (discovery c years [] [] []);
  out ← enrichment c total;
  Ok out.1.

(** The module body before [main]: the key must be set and not empty. *)
Definition check_api_key (key : option string) : result string :=
  match key with
  | Some (String a s) => Ok (String a s)
  | _ => Raise ValueError
  end.

Definition run (key : option string) (c : catalog)
  : result (list (list (string * json))) :=
  _ ← check_api_key key;
  main c.

End Fetcher.

(** ** A concrete instance and a small raw table

    Simple versions of the library functions, enough to run the scripts on
    a table: ISO dates, list literals of quoted names, [x] for [log1p] and
    equal importances. *)
Module Sample.

Definition digit (a : ascii) : option Z :=
  let n := nat_of_ascii a in
  if bool_decide (48 ≤ n ≤ 57)%nat then Some (Z.of_nat n - 48)%Z else None.

Fixpoint digits (acc : Z) (s : list ascii) : option Z :=
  match s with
  | [] => Some acc
  | a :: s' => d ← digit a; digits (10 * acc + d)%Z s'
  end.

Definition iso_date (s : string) : option date :=
  match list_ascii_of_string s with
  | [y1; y2; y3; y4; "-"%char; m1; m2; "-"%char; d1; d2] =>
      y ← digits 0 [y1; y2; y3; y4];
      m ← digits 0 [m1; m2];
      d ← digits 0 [d1; d2];
      if bool_decide (1 ≤ m ≤ 12 ∧ 1 ≤ d ≤ 31)%Z then Some (Date y m d) else None
  | _ => None
  end.

Fixpoint items (cs : list ascii) (cur : option string) (acc : list string)
  : option (list string) :=
  match cs, cur with
  | [], _ => None
  | ["]"%char], None => Some (reverse acc)
  | c :: cs', None =>
      if decide (c = "'"%char) then items cs' (Some EmptyString) acc
      else if decide (c = ","%char ∨ c = " "%char) then items cs' None acc
      else None
  | c :: cs', Some s =>
      if decide (c = "'"%char) then items cs' None (s :: acc)
      else items cs' (Some (s +:+ String c EmptyString)) acc
  end.

Definition list_literal (s : string) : option (list string) :=
  match list_ascii_of_string s with
  | "["%char :: cs => items cs None []
  | _ => None
  end.

#[local] Instance externals : Externals := {|
  to_datetime xs :=
    (fun x => match x with CStr s => iso_date s | _ => None end) <$> xs;
  to_datetime_length xs := length_fmap _ xs;
  py_str x :=
    match x with
    | CInt z => pretty z
    | CStr s => s
    | CBool true => "True"
    | CBool false => "False"
    | _ => "nan"
    end;
  log1p_finite q := q;
  literal_eval x :=
    match x with
    | CStr s =>
        match list_literal s with
        | Some l => Ok (CList l)
        | None => Raise ValueError
        end
    | _ => Raise ValueError
    end;
  rf_feature_importances X y :=
    match X with
    | [] => Raise ValueError
    | _ => Ok ((fun _ => Fin (1 / Qc_of_Z (Z.of_nat (length X)))) <$> X)
    end;
|}.

Definition tenths (z : Z) : float64 := Fin (Qc_of_Z z / Qc_of_Z 10).

(** Six rows in the layout [fetch_movie_details] writes; the second has a
    zero budget and an empty genre list. *)
Definition raw : frame :=
  [ ("id", IntCol W64 [603; 129; 120; 604; 27205; 157336]%Z);
    ("title", ObjCol (CStr <$> ["The Matrix"; "Spirited Away"; "The Fellowship of the Ring";
                                "The Matrix Reloaded"; "Inception"; "Interstellar"]));
    ("original_title", ObjCol (CStr <$> ["The Matrix"; "Sen to Chihiro"; "The Fellowship of the Ring";
                                         "The Matrix Reloaded"; "Inception"; "Interstellar"]));
    ("overview", ObjCol (CStr <$> ["a"; "b"; "c"; "d"; "e"; "f"]));
    ("release_date", ObjCol (CStr <$> ["1999-03-31"; "2001-07-20"; "2001-12-18";
                                       "2003-05-15"; "2010-07-15"; "2014-11-05"]));
    ("original_language", ObjCol (CStr <$> ["en"; "ja"; "en"; "en"; "en"; "en"]));
    ("popularity", FloatCol (tenths <$> [905; 812; 1107; 433; 998; 1405]%Z));
    ("vote_average", FloatCol (tenths <$> [82; 85; 84; 70; 84; 84]%Z));
    ("vote_count", IntCol W64 [25000; 16000; 24000; 10000; 36000; 35000]%Z);
    ("adult", BoolCol [false; false; false; false; false; false]);
    ("genres", ObjCol (CStr <$> ["['Action', 'Science Fiction']"; "[]"; "['Adventure', 'Fantasy']";
                                 "['Action']"; "['Action', 'Science Fiction']"; "['Adventure', 'Drama']"]));
    ("runtime", IntCol W64 [136; 125; 179; 138; 148; 169]%Z);
    ("budget", IntCol W64 [6300000; 0; 9300000; 15000000; 16000000; 165000000]%Z);
    ("revenue", IntCol W64 [463517383; 274925095; 871368364; 738599701; 825532764; 701729206]%Z);
    ("production_countries", ObjCol (CStr <$> ["['United States of America']"; "['Japan']"; "['New Zealand']";
                                               "['United States of America']"; "['United Kingdom']"; "[]"]));
    ("spoken_languages", ObjCol (CStr <$> ["['English']"; "['Japanese']"; "['English']";
                                           "['English']"; "['English']"; "['English']"])) ].

(** What the cleaner returns on [raw]. *)
Definition cleaned : frame * list string :=
  match clean raw with
  | Ok p => p
  | Raise _ => ([], [])
  end.

(** The table after the first stage of the cleaner, and its budget column. *)
Definition enriched : frame :=
  match enrich raw with
  | Ok df => df
  | Raise _ => []
  end.

Definition budget : column :=
  match get_col "budget" enriched with
  | Ok c => c
  | Raise _ => ObjCol []
  end.

(** What the trainer computes from it. *)
Definition trained : list string * list (string * float64) :=
  match train cleaned.1 cleaned.2 with
  | Ok p => p
  | Raise _ => ([], [])
  end.

(** What the dashboard loads from it, and the release counts per year of
    the range before interpolation. *)
Definition dash : loaded :=
  match load cleaned.1 with
  | Ok d => d
  | Raise _ => Loaded [] 0 0
  end.

Definition release_counts : list float64 :=
  match reindexed dash Releases with
  | Ok ys => ys
  | Raise _ => []
  end.

Definition genre_pie : list (cell * nat) :=
  match pie_data (l_df dash) with
  | Ok pie => pie
  | Raise _ => []
  end.

(** A world without any file. *)
Definition empty_world : world := World ∅ [].

(** The first row of [raw], twice. *)
Definition first_twice (c : column) : column :=
  match c with
  | IntCol w xs => IntCol w (take 1 xs ++ take 1 xs)
  | FloatCol xs => FloatCol (take 1 xs ++ take 1 xs)
  | BoolCol xs => BoolCol (take 1 xs ++ take 1 xs)
  | DateCol xs => DateCol (take 1 xs ++ take 1 xs)
  | ObjCol xs => ObjCol (take 1 xs ++ take 1 xs)
  end.

Definition twins : frame := (fun nc => (nc.1, first_twice nc.2)) <$> raw.





(** A catalog with one movie on every page and no detail answers. *)
Definition catalog : Fetcher.catalog :=
  Fetcher.Catalog
    (fun _ _ => Fetcher.Http 200
                  (Some (Fetcher.JObj
                           [("results",
                             Fetcher.JArr [Fetcher.JObj [("id", Fetcher.JInt 603)]])])))
    (fun _ _ => Fetcher.TransportFailure).


(** The genre column the dashboard loads. *)
Definition genres : column :=
  match get_col "genres" (l_df dash) with
  | Ok c => c
  | Raise _ => ObjCol []
  end.

(** Two cleaned tables with movies in 2000 and 2002 and none in 2001; the
    revenue of one of the two movies is missing, as the cleaner leaves it
    for a revenue of zero. *)
Definition unsold_first : frame :=
  [ ("release_year", IntCol W64 [2000; 2002]%Z);
    ("revenue", FloatCol [NaN; of_int 5]) ].

Definition unsold_last : frame :=
  [ ("release_year", IntCol W64 [2000; 2002]%Z);
    ("revenue", FloatCol [of_int 7; NaN]) ].

Definition unsold_first_dash : loaded :=
  match load unsold_first with
  | Ok d => d
  | Raise _ => Loaded [] 0 0
  end.

Definition unsold_last_dash : loaded :=
  match load unsold_last with
  | Ok d => d
  | Raise _ => Loaded [] 0 0
  end.

End Sample.

(** * Properties *)

(** ** Masks and rows *)

Section Select.
Context {A : Type}.
Implicit Types (m : list bool) (xs : list A).

Lemma select_nil_r m : select m ([] : list A) = [].
Proof. by destruct m. Qed.

Lemma select_fmap {B} (f : A -> B) m xs : select m (f <$> xs) = f <$> select m xs.
Proof.
  revert xs. induction m as [|b m IH]; intros [|x xs]; simpl; try done.
  destruct b; simpl; by rewrite IH.
Qed.

Lemma select_all m xs :
  Forall (fun b => b = true) m -> (length xs ≤ length m)%nat -> select m xs = xs.
Proof.
  intros Hm. revert xs. induction Hm as [|b m -> _ IH]; intros [|x xs] Hl; simpl in *; try done.
  - lia.
  - f_equal. apply IH. lia.
Qed.

Lemma elem_of_select m xs x : x ∈ select m xs -> x ∈ xs.
Proof.
  revert xs. induction m as [|b m IH]; intros [|y xs]; simpl; try by inversion 1.
  destruct b; rewrite ?elem_of_cons; naive_solver.
Qed.
Lemma select_app m1 m2 xs ys :
  length m1 = length xs ->
  select (m1 ++ m2) (xs ++ ys) = select m1 xs ++ select m2 ys.
Proof.
  revert xs. induction m1 as [|b m1 IH]; intros [|x xs] Hl; simpl in *; try done.
  destruct b; simpl; rewrite IH by lia; done.
Qed.
End Select.


Lemma length_select {A} (m : list bool) (xs : list A) :
  length xs = length m -> length (select m xs) = kept m.
Proof.
  unfold kept. revert xs. induction m as [|b m IH]; intros [|x xs] Hl; simpl in *; try done.
  destruct b; simpl; rewrite (IH xs); auto.
Qed.

Lemma cells_col_select m c : cells (col_select m c) = select m (cells c).
Proof. destruct c; simpl; by rewrite ?select_fmap. Qed.

Lemma col_dtype_select m c : col_dtype (col_select m c) = col_dtype c.
Proof. by destruct c. Qed.

Lemma columns_select_rows m df : columns (select_rows m df) = columns df.
Proof. unfold columns, select_rows. rewrite <- list_fmap_compose. done. Qed.


Lemma rows_rows_of df : rows df = rows_of (nrows df) ((fun nc => cells nc.2) <$> df).
Proof.
  unfold rows, rows_of, row. apply list_fmap_ext. intros _ i _.
  by rewrite <- list_fmap_compose.
Qed.

Lemma rows_of_S n cs : rows_of (S n) cs = (head <$> cs) :: rows_of n (tail <$> cs).
Proof.
  unfold rows_of. simpl. f_equal.
  - apply list_fmap_ext. by intros _ [|??] _.
  - rewrite <- fmap_S_seq, <- list_fmap_compose. apply list_fmap_ext.
    intros _ i _. simpl. rewrite <- list_fmap_compose. apply list_fmap_ext.
    by intros _ [|??] _.
Qed.

Lemma rows_of_select m cs :
  Forall (fun c => length c = length m) cs ->
  rows_of (kept m) (select m <$> cs) = select m (rows_of (length m) cs).
Proof.
  revert cs. induction m as [|b m IH]; intros cs Hcs; [done|].
  assert (Htl : Forall (fun c => length c = length m) (tail <$> cs)).
  { rewrite Forall_fmap. eapply Forall_impl; [exact Hcs|].
    intros [|??]; simpl; [done|]. intros; lia. }
  simpl length. rewrite rows_of_S. destruct b; simpl.
  - change (kept (true :: m)) with (S (kept m)). rewrite rows_of_S. f_equal.
    + rewrite <- list_fmap_compose. apply Forall_fmap_ext.
      eapply Forall_impl; [exact Hcs|]. by intros [|??].
    + rewrite <- IH by done. f_equal. rewrite <- !list_fmap_compose.
      apply Forall_fmap_ext. eapply Forall_impl; [exact Hcs|]. by intros [|??].
  - change (kept (false :: m)) with (kept m). rewrite <- IH by done. f_equal.
    rewrite <- list_fmap_compose. apply Forall_fmap_ext.
    eapply Forall_impl; [exact Hcs|]. intros [|??]; simpl; [|done].
    by rewrite select_nil_r.
Qed.

Lemma nrows_select_rows m df :
  rectangular df -> length m = nrows df -> nrows (select_rows m df) = kept m.
Proof.
  destruct df as [|[n c] df]; intros Hr Hm; simpl in *.
  - by destruct m.
  - rewrite cells_col_select. by apply length_select.
Qed.

Lemma rows_select_rows m df :
  rectangular df -> length m = nrows df ->
  rows (select_rows m df) = select m (rows df).
Proof.
  intros Hr Hm. rewrite !rows_rows_of, nrows_select_rows, <- Hm by done.
  rewrite <- rows_of_select.
  - f_equal. unfold select_rows. rewrite <- !list_fmap_compose.
    apply list_fmap_ext. intros _ [n c] _. simpl. apply cells_col_select.
  - rewrite Forall_fmap. eapply Forall_impl; [exact Hr|].
    intros [n c] Hc. simpl in *. congruence.
Qed.

Lemma rectangular_select_rows m df :
  rectangular df -> length m = nrows df -> rectangular (select_rows m df).
Proof.
  intros Hr Hm. unfold rectangular. rewrite nrows_select_rows by done.
  unfold select_rows. rewrite Forall_fmap. eapply Forall_impl; [exact Hr|].
  intros [n c] Hc. simpl in *. rewrite cells_col_select.
  apply length_select. congruence.
Qed.

Lemma length_rows df : length (rows df) = nrows df.
Proof. unfold rows. by rewrite length_fmap, length_seq. Qed.

Section Duplicated.
Context {A : Type} `{EqDecision A}.
Implicit Types (seen xs : list A).

Lemma length_duplicated_from seen xs : length (duplicated_from seen xs) = length xs.
Proof. revert seen. induction xs as [|x xs IH]; intros seen; simpl; [done|]. by rewrite IH. Qed.

(** The rows kept are the values not seen before, once each. *)
Lemma elem_of_keep_first seen xs x :
  x ∈ select (negb <$> duplicated_from seen xs) xs <-> x ∈ xs ∧ x ∉ seen.
Proof.
  revert seen. induction xs as [|y xs IH]; intros seen; simpl.
  - split; [by inversion 1|]. intros [Hx _]. by inversion Hx.
  - destruct (bool_decide_reflect (y ∈ seen)) as [Hy|Hy]; simpl.
    + rewrite IH. set_solver.
    + rewrite !elem_of_cons, IH. 
      destruct (decide (x = y)); set_solver.
Qed.

Lemma NoDup_keep_first seen xs :
  NoDup (select (negb <$> duplicated_from seen xs) xs).
Proof.
  revert seen. induction xs as [|y xs IH]; intros seen; simpl; [constructor|].
  destruct (bool_decide_reflect (y ∈ seen)) as [Hy|Hy]; simpl; [apply IH|].
  constructor; [|apply IH].
  rewrite elem_of_keep_first. set_solver.
Qed.

(** Without a repeated value nothing is marked. *)
Lemma duplicated_from_NoDup seen xs :
  NoDup xs -> (forall x, x ∈ xs -> x ∉ seen) ->
  Forall (fun b => b = true) (negb <$> duplicated_from seen xs).
Proof.
  intros Hnd. revert seen. induction Hnd as [|y xs Hy Hnd IH]; intros seen Hs; simpl.
  - constructor.
  - constructor.
    + rewrite bool_decide_eq_false_2; [done|]. apply Hs. left.
    + apply IH. intros x Hx. rewrite not_elem_of_cons. split.
      * intros ->. done.
      * apply Hs. by right.
Qed.

Lemma NoDup_unique xs : NoDup (unique xs).
Proof. apply NoDup_keep_first. Qed.

Lemma elem_of_unique xs x : x ∈ unique xs <-> x ∈ xs.
Proof. unfold unique. rewrite elem_of_keep_first. split; [naive_solver|]. intros; split; [done|]. by inversion 1. Qed.

Lemma duplicated_from_app seen xs ys :
  duplicated_from seen (xs ++ ys)
  = duplicated_from seen xs ++ duplicated_from (reverse xs ++ seen) ys.
Proof.
  revert seen. induction xs as [|x xs IH]; intros seen; simpl; [done|].
  rewrite IH, reverse_cons, <- app_assoc. done.
Qed.

Lemma duplicated_from_ext seen seen' xs :
  (forall x, x ∈ seen <-> x ∈ seen') ->
  duplicated_from seen xs = duplicated_from seen' xs.
Proof.
  revert seen seen'. induction xs as [|x xs IH]; intros seen seen' Hs; simpl; [done|].
  f_equal; [by apply bool_decide_ext|]. apply IH. intros y. rewrite !elem_of_cons, Hs. done.
Qed.

(** Scanning in order: a value joins the distinct values, at the end, the
    first time it is seen. *)
Lemma unique_first_seen xs x ys :
  x ∉ xs -> exists rest, unique (xs ++ x :: ys) = unique xs ++ x :: rest.
Proof.
  intros Hx. unfold unique. rewrite duplicated_from_app, fmap_app. simpl.
  rewrite bool_decide_eq_false_2 by (rewrite app_nil_r, elem_of_reverse; done). simpl.
  eexists. rewrite select_app by (by rewrite length_fmap, length_duplicated_from).
  done.
Qed.
End Duplicated.

Lemma drop_duplicates_rectangular df :
  rectangular df -> rectangular (drop_duplicates df).
Proof.
  intros Hr. apply rectangular_select_rows; [done|].
  unfold duplicated. by rewrite length_fmap, length_duplicated_from, length_rows.
Qed.

Lemma rows_drop_duplicates df :
  rectangular df -> rows (drop_duplicates df) = unique (rows df).
Proof.
  intros Hr. unfold drop_duplicates. rewrite rows_select_rows; [done..|].
  unfold duplicated. by rewrite length_fmap, length_duplicated_from, length_rows.
Qed.

Lemma select_rows_all m df :
  rectangular df -> Forall (fun b => b = true) m -> length m = nrows df ->
  select_rows m df = df.
Proof.
  intros Hr Hm Hl. unfold select_rows.
  rewrite <- (list_fmap_id df) at 2. apply Forall_fmap_ext.
  eapply Forall_impl; [exact Hr|]. intros [n c] Hc. simpl in *. f_equal.
  destruct c; simpl in *; rewrite length_fmap in Hc || idtac; f_equal;
    apply select_all; try done; lia.
Qed.

Lemma drop_duplicates_idemp df :
  rectangular df -> drop_duplicates (drop_duplicates df) = drop_duplicates df.
Proof.
  intros Hr. pose proof (drop_duplicates_rectangular df Hr) as Hr'.
  unfold drop_duplicates at 1. apply select_rows_all; [done| |].
  - unfold duplicated. rewrite rows_drop_duplicates by done.
    apply duplicated_from_NoDup; [apply NoDup_unique|]. intros x _. by inversion 1.
  - unfold duplicated. by rewrite length_fmap, length_duplicated_from, length_rows.
Qed.

(** ** Frames: reading, writing and dropping columns *)

Lemma bind_Ok {A B} (r : result A) (k : A -> result B) b :
  r ≫= k = Ok b <-> exists a, r = Ok a ∧ k a = Ok b.
Proof. destruct r; simpl; split; try naive_solver. Qed.

Lemma get_set_eq name c df : get_col name (set_col name c df) = Ok c.
Proof.
  induction df as [|[n c0] df IH]; simpl.
  - by rewrite decide_True.
  - destruct (decide (n = name)); simpl; [by rewrite decide_True|by rewrite decide_False].
Qed.

Lemma get_set_ne name name' c df :
  name ≠ name' -> get_col name' (set_col name c df) = get_col name' df.
Proof.
  intros Hne. induction df as [|[n c0] df IH]; simpl.
  - by rewrite decide_False.
  - destruct (decide (n = name)) as [->|]; simpl.
    + by rewrite !decide_False.
    + by rewrite IH.
Qed.

Lemma get_col_elem name df c : get_col name df = Ok c -> (name, c) ∈ df.
Proof.
  induction df as [|[n c0] df IH]; simpl; [done|].
  destruct (decide (n = name)) as [->|]; [intros [= ->]; left|right; auto].
Qed.

Lemma get_col_columns_2 name df c : get_col name df = Ok c -> name ∈ columns df.
Proof.
  intros Hg%get_col_elem. unfold columns. apply list_elem_of_fmap. by exists (name, c).
Qed.


Lemma columns_set_col name c df :
  columns (set_col name c df)
  = if decide (name ∈ columns df) then columns df else columns df ++ [name].
Proof.
  unfold columns. induction df as [|[n c0] df IH]; [done|].
  cbn [set_col]. destruct (decide (n = name)) as [->|Hne]; rewrite !fmap_cons.
  - rewrite decide_True; [done|left].
  - rewrite IH. cbn [fst]. destruct (decide (name ∈ df.*1)).
    + rewrite decide_True; [done|by right].
    + rewrite decide_False; [done|]. rewrite elem_of_cons. naive_solver.
Qed.

Lemma elem_of_columns_set_col name c df n :
  n ∈ columns (set_col name c df) <-> n = name ∨ n ∈ columns df.
Proof.
  rewrite columns_set_col. destruct (decide (name ∈ columns df)); set_solver.
Qed.

Lemma get_drop_columns names name df :
  name ∉ names -> get_col name (drop_columns names df) = get_col name df.
Proof.
  intros Hn. unfold drop_columns. induction df as [|[n c0] df IH]; [done|].
  rewrite filter_cons. cbn [fst get_col].
  destruct (decide (n ∉ names)) as [Hin|Hin]; cbn [get_col].
  - by rewrite IH.
  - rewrite IH. rewrite decide_False; [done|]. intros ->. done.
Qed.

Lemma columns_drop_columns names df :
  columns (drop_columns names df) = filter (fun n => n ∉ names) (columns df).
Proof.
  unfold columns, drop_columns. induction df as [|[n c0] df IH]; [done|].
  rewrite fmap_cons, !filter_cons. cbn [fst].
  destruct (decide (n ∉ names)); rewrite ?fmap_cons; by rewrite IH.
Qed.

Lemma elem_of_drop_columns names df nc :
  nc ∈ drop_columns names df <-> nc ∈ df ∧ nc.1 ∉ names.
Proof. unfold drop_columns. rewrite list_elem_of_filter. tauto. Qed.


Lemma rectangular_height df : rectangular df <-> height (nrows df) df.
Proof. done. Qed.

Lemma height_nrows n df : height n df -> df ≠ [] -> nrows df = n.
Proof. destruct df as [|[??]?]; [done|]. intros Hh _. by inversion Hh. Qed.

Lemma height_set_col n name c df :
  height n df -> length (cells c) = n -> height n (set_col name c df).
Proof.
  intros Hh Hc. induction Hh as [|[n0 c0] df H0 Hh IH]; simpl.
  - by repeat constructor.
  - destruct (decide (n0 = name)); constructor; auto.
Qed.

Lemma height_drop_columns n names df :
  height n df -> height n (drop_columns names df).
Proof.
  intros Hh. apply Forall_forall. intros nc [_ Hnc]%list_elem_of_filter.
  by apply (proj1 (Forall_forall _ _) Hh).
Qed.

Lemma height_get_col n name df c :
  height n df -> get_col name df = Ok c -> length (cells c) = n.
Proof.
  intros Hh Hg. apply get_col_elem in Hg.
  by apply (proj1 (Forall_forall _ _) Hh) in Hg.
Qed.

(** ** Names ending in _log *)

Lemma list_ascii_of_string_app a b :
  list_ascii_of_string (a +:+ b) = list_ascii_of_string a ++ list_ascii_of_string b.
Proof. induction a as [|x a IH]; simpl; [done|]. by rewrite <- IH. Qed.

Lemma list_ascii_of_string_inj a b :
  list_ascii_of_string a = list_ascii_of_string b -> a = b.
Proof.
  intros E. rewrite <- (string_of_list_ascii_of_string a), <- (string_of_list_ascii_of_string b).
  by rewrite E.
Qed.

Lemma ends_with_app suffix s : ends_with suffix (s +:+ suffix) = true.
Proof.
  unfold ends_with. apply bool_decide_eq_true_2.
  rewrite list_ascii_of_string_app. by apply suffix_app_r.
Qed.

Lemma app_suffix_inj a b suffix : a +:+ suffix = b +:+ suffix -> a = b.
Proof.
  intros E. apply list_ascii_of_string_inj.
  apply (f_equal list_ascii_of_string) in E.
  rewrite !list_ascii_of_string_app in E. by apply app_inv_tail in E.
Qed.

Lemma log_name_not_plain c n : ends_with "_log" n = false -> c +:+ "_log" ≠ n.
Proof. intros Hn <-. by rewrite ends_with_app in Hn. Qed.

Section CleanerFacts.
Context `{Externals}.

Lemma length_as_floats c xs : as_floats c = Ok xs -> length xs = length (cells c).
Proof. destruct c; simpl; intros [= <-]; by rewrite ?length_fmap. Qed.

Lemma length_dt_field f c c' :
  dt_field f c = Ok c' -> length (cells c') = length (cells c).
Proof.
  destruct c; simpl; try done. intros [= <-].
  destruct (forallb _ _); simpl; by rewrite !length_fmap.
Qed.

Lemma length_astype_str c : length (cells (astype_str c)) = length (cells c).
Proof. unfold astype_str. simpl. by rewrite length_fmap. Qed.

Lemma length_replace_zero_nan c :
  length (cells (replace_zero_nan c)) = length (cells c).
Proof.
  destruct c; simpl; try done; [case_bool_decide|]; simpl; by rewrite !length_fmap.
Qed.

Lemma length_roi_column r b c :
  roi_column r b = Ok c -> length (cells r) = length (cells b) ->
  length (cells c) = length (cells b).
Proof.
  unfold roi_column. intros Hc Hl.
  apply bind_Ok in Hc as (rs & Hrs & Hc). apply bind_Ok in Hc as (bs & Hbs & [= <-]).
  apply length_as_floats in Hrs, Hbs. simpl.
  rewrite length_fmap, !length_zip_with. lia.
Qed.


Lemma enrich_inv df df1 :
  enrich df = Ok df1 ->
  exists b0 r0 roi,
    get_col "budget" (drop_duplicates df) = Ok b0 ∧
    get_col "revenue" (drop_duplicates df) = Ok r0 ∧
    roi_column (replace_zero_nan r0) (replace_zero_nan b0) = Ok roi ∧
    get_col "budget" df1 = Ok (replace_zero_nan b0) ∧
    get_col "revenue" df1 = Ok (replace_zero_nan r0) ∧
    get_col "roi" df1 = Ok roi ∧
    (forall n, n ∉ enriched_names ->
               get_col n df1 = get_col n (drop_duplicates df)) ∧
    (forall n, n ∈ columns df1 <->
               n ∈ columns (drop_duplicates df)
               ∨ n ∈ ["release_year"; "release_month"; "release_day"; "roi"]) ∧
    (forall k, height k (drop_duplicates df) -> height k df1).
Proof.
  unfold enrich. generalize (drop_duplicates df). clear df. intros d He.
  apply bind_Ok in He as (rd0 & Hrd0 & He).
  apply bind_Ok in He as (rd1 & Hrd1 & He). rewrite get_set_eq in Hrd1. injection Hrd1 as <-.
  apply bind_Ok in He as (y & Hy & He).
  apply bind_Ok in He as (rd2 & Hrd2 & He). rewrite get_set_ne, get_set_eq in Hrd2 by done. injection Hrd2 as <-.
  apply bind_Ok in He as (m & Hm & He).
  apply bind_Ok in He as (rd3 & Hrd3 & He). rewrite !get_set_ne, get_set_eq in Hrd3 by done. injection Hrd3 as <-.
  apply bind_Ok in He as (dd & Hdd & He).
  apply bind_Ok in He as (idc & Hid & He). rewrite !get_set_ne in Hid by done.
  apply bind_Ok in He as (b0 & Hb0 & He). rewrite !get_set_ne in Hb0 by done.
  apply bind_Ok in He as (r0 & Hr0 & He). rewrite !get_set_ne in Hr0 by done.
  apply bind_Ok in He as (r1 & Hr1 & He). rewrite get_set_eq in Hr1. injection Hr1 as <-.
  apply bind_Ok in He as (b1 & Hb1 & He). rewrite get_set_ne, get_set_eq in Hb1 by done. injection Hb1 as <-.
  apply bind_Ok in He as (roi & Hroi & He). injection He as <-.
  exists b0, r0, roi. split_and!; try done.
  - by rewrite !get_set_ne, get_set_eq by done.
  - by rewrite !get_set_ne, get_set_eq by done.
  - by rewrite get_set_eq.
  - intros n Hn. unfold enriched_names in Hn. rewrite !not_elem_of_cons in Hn.
    destruct Hn as (?&?&?&?&?&?&?&?&_). by rewrite !get_set_ne by done.
  - intros n. rewrite !elem_of_columns_set_col.
    apply get_col_columns_2 in Hrd0, Hid, Hb0, Hr0. set_solver.
  - intros k Hk.
    pose proof (height_get_col _ _ _ _ Hk Hrd0) as Lrd.
    pose proof (height_get_col _ _ _ _ Hk Hid) as Lid.
    pose proof (height_get_col _ _ _ _ Hk Hb0) as Lb.
    pose proof (height_get_col _ _ _ _ Hk Hr0) as Lr.
    assert (Ld : length (cells (DateCol (to_datetime (cells rd0)))) = k).
    { simpl. by rewrite length_fmap, to_datetime_length. }
    apply length_dt_field in Hy, Hm, Hdd.
    apply length_roi_column in Hroi; rewrite ?length_replace_zero_nan in *; [|congruence].
    repeat apply height_set_col; try done; try congruence.
    + by rewrite length_astype_str.
    + by rewrite length_replace_zero_nan.
    + by rewrite length_replace_zero_nan.
Qed.



Lemma log_companion_Ok c lc :
  log_companion c = Ok lc ->
  exists xs, as_floats c = Ok xs ∧ lc = FloatCol (log1p_clip <$> xs).
Proof.
  unfold log_companion. intros Hc. apply bind_Ok in Hc as (xs & Hxs & [= <-]). eauto.
Qed.

Lemma add_log_columns_inv cols df df' :
  add_log_columns cols df = Ok df' ->
  (forall n, (forall c, c ∈ cols -> n ≠ c +:+ "_log") ->
             get_col n df' = get_col n df) ∧
  (forall c, c ∈ cols ->
             exists ys, get_col (c +:+ "_log") df' = Ok (FloatCol ys)) ∧
  (forall n, n ∈ columns df' <->
             n ∈ columns df ∨ exists c, c ∈ cols ∧ n = c +:+ "_log") ∧
  (forall k, height k df -> height k df').
Proof.
  revert df. induction cols as [|c cols IH]; intros df Ha; simpl in Ha.
  - injection Ha as <-. split_and!; try done.
    + intros c Hc. by apply elem_of_nil in Hc.
    + intros n. split; [auto|]. intros [?|(c & Hc & _)]; [done|]. by apply elem_of_nil in Hc.
  - apply bind_Ok in Ha as (col & Hcol & Ha).
    apply bind_Ok in Ha as (lc & Hlc & Ha).
    apply log_companion_Ok in Hlc as (xs & Hxs & ->).
    apply IH in Ha as (Hother & Hlog & Hcols & Hheight).
    split_and!.
    + intros n Hn. rewrite Hother.
      * apply get_set_ne. apply not_eq_sym, Hn. left.
      * intros c' Hc'. apply Hn. by right.
    + intros c' Hc'. destruct (decide (c' ∈ cols)) as [Hin|Hnin]; [by apply Hlog|].
      apply elem_of_cons in Hc' as [->|?]; [|done]. eexists.
      rewrite Hother; [apply get_set_eq|].
      intros c' Hc' E. apply app_suffix_inj in E as ->. done.
    + intros n. rewrite Hcols, elem_of_columns_set_col. split.
      * intros [[->|?]|(c' & Hc' & ->)]; [right; exists c; split; [left|done]|by left|].
        right. exists c'. split; [by right|done].
      * intros [?|(c' & [->|Hc']%elem_of_cons & ->)]; [by left; right|by left; left|].
        right. by exists c'.
    + intros k Hk. apply Hheight, height_set_col; [done|].
      simpl. rewrite !length_fmap. apply length_as_floats in Hxs.
      rewrite Hxs. by eapply height_get_col.
Qed.

(** When no selected name itself ends in _log, each companion holds the
    transform of the column it is named after. *)
Lemma add_log_columns_values cols df df' :
  add_log_columns cols df = Ok df' ->
  (forall c, c ∈ cols -> ends_with "_log" c = false) ->
  forall c, c ∈ cols ->
    exists xs, get_col c df ≫= as_floats = Ok xs ∧
               get_col (c +:+ "_log") df' = Ok (FloatCol (log1p_clip <$> xs)).
Proof.
  revert df. induction cols as [|c cols IH]; intros df Ha Hplain c' Hc'; simpl in Ha.
  - by apply elem_of_nil in Hc'.
  - apply bind_Ok in Ha as (col & Hcol & Ha).
    apply bind_Ok in Ha as (lc & Hlc & Ha).
    apply log_companion_Ok in Hlc as (xs & Hxs & ->).
    destruct (decide (c' ∈ cols)) as [Hin|Hnin].
    + destruct (IH _ Ha) with (c := c') as (xs' & Hxs' & Hl); [|done|].
      { intros c'' Hc''. apply Hplain. by right. }
      exists xs'. split; [|done].
      rewrite get_set_ne in Hxs'; [done|]. apply log_name_not_plain. by apply Hplain.
    + apply elem_of_cons in Hc' as [->|?]; [|done]. exists xs. split.
      { by rewrite Hcol. }
      apply add_log_columns_inv in Ha as (Hother & _). rewrite Hother; [apply get_set_eq|].
      intros c' Hc' E. apply app_suffix_inj in E as ->. done.
Qed.

Lemma length_language_name codes : length (language_name codes) = length codes.
Proof. unfold language_name. by rewrite length_fmap. Qed.

Lemma finish_inv df df' :
  finish df = Ok df' ->
  exists ol,
    get_col "original_language" df = Ok ol ∧
    get_col "language_name" df' = Ok (ObjCol (language_name (cells ol))) ∧
    (forall n, n ∉ drop_cols -> n ≠ "language_name" ->
               get_col n df' = get_col n df) ∧
    (forall n, n ∈ columns df' <->
               (n ∈ columns df ∨ n = "language_name") ∧ n ∉ drop_cols) ∧
    (forall k, height k df -> height k df').
Proof.
  unfold finish. intros Hf. apply bind_Ok in Hf as (ol & Hol & [= <-]).
  set (df1 := set_col "language_name" _ df).
  assert (Hd : forall n, n ∈ filter (fun c => c ∈ columns df1) drop_cols -> n ∈ drop_cols).
  { intros n. rewrite list_elem_of_filter. tauto. }
  exists ol. split_and!; [done| | | |].
  - rewrite get_drop_columns; [apply get_set_eq|]. intros Hn%Hd. revert Hn. compute_done.
  - intros n Hn Hne. rewrite get_drop_columns; [by apply get_set_ne|]. intros ?%Hd. done.
  - intros n. rewrite columns_drop_columns, list_elem_of_filter, list_elem_of_filter.
    unfold df1. rewrite elem_of_columns_set_col. tauto.
  - intros k Hk. apply height_drop_columns, height_set_col; [done|].
    simpl. rewrite length_language_name. by eapply height_get_col.
Qed.


Lemma clean_inv df df3 sk :
  clean df = Ok (df3, sk) ->
  exists df1 df2,
    enrich df = Ok df1 ∧ sk = skewed_cols df1 ∧
    add_log_columns sk df1 = Ok df2 ∧ finish df2 = Ok df3.
Proof.
  unfold clean. intros Hc.
  apply bind_Ok in Hc as (df1 & H1 & Hc).
  apply bind_Ok in Hc as (df2 & H2 & Hc).
  apply bind_Ok in Hc as (df3' & H3 & [= <- <-]). eauto 10.
Qed.

(** A column the cleaner neither writes nor drops reaches the cleaned
    table unchanged (up to deduplication). *)
Lemma clean_untouched df df3 sk n :
  clean df = Ok (df3, sk) ->
  ends_with "_log" n = false -> n ∉ drop_cols -> n ≠ "language_name" ->
  exists df1, enrich df = Ok df1 ∧ get_col n df3 = get_col n df1.
Proof.
  intros (df1 & df2 & H1 & -> & H2 & H3)%clean_inv Hlog Hdrop Hname.
  exists df1. split; [done|].
  apply finish_inv in H3 as (_ & _ & _ & Hf & _).
  apply add_log_columns_inv in H2 as (Hl & _).
  rewrite Hf by done. apply Hl. intros c _. by apply not_eq_sym, log_name_not_plain.
Qed.

End CleanerFacts.

(** ** Dictionaries built from pairs *)

Section Dict.
Context {K V : Type} `{Countable K}.

Lemma py_dict_snoc (l : list (K * V)) k v :
  py_dict (l ++ [(k, v)]) = <[k := v]> (py_dict l).
Proof. unfold py_dict. by rewrite foldl_app. Qed.

Lemma py_dict_lookup_Some (l : list (K * V)) k v :
  NoDup l.*1 -> py_dict l !! k = Some v <-> (k, v) ∈ l.
Proof.
  induction l as [|[k0 v0] l IH] using rev_ind; intros Hnd.
  - unfold py_dict. simpl. rewrite lookup_empty. split; [done|by intros ?%elem_of_nil].
  - rewrite fmap_app in Hnd. apply NoDup_app in Hnd as (Hl & Hk0 & _).
    rewrite py_dict_snoc, elem_of_app, list_elem_of_singleton.
    destruct (decide (k0 = k)) as [->|Hne].
    + rewrite lookup_insert_eq. split; [intros [= ->]; by right|].
      intros [Hin|[= ->]]; [|done]. exfalso. apply (Hk0 k); [|left].
      apply list_elem_of_fmap. by exists (k, v).
    + rewrite lookup_insert_ne, IH by done. naive_solver.
Qed.

Lemma NoDup_fst_zip (ks : list K) (vs : list V) : NoDup ks -> NoDup (zip ks vs).*1.
Proof.
  intros Hnd. revert vs. induction Hnd as [|k ks Hk Hnd IH]; intros [|v vs]; simpl;
    try constructor; [|apply IH].
  intros ([k' v'] & -> & Hin)%list_elem_of_fmap.
  apply elem_of_lookup_zip_with in Hin as (i & x & y & [= -> ->] & Hx & _).
  apply Hk. by eapply list_elem_of_lookup_2.
Qed.

(** The value stored under the key at position [p] of distinct keys is the
    value at position [p], if there is one. *)
Lemma py_dict_zip_lookup (ks : list K) (vs : list V) p k :
  NoDup ks -> ks !! p = Some k -> py_dict (zip ks vs) !! k = vs !! p.
Proof.
  intros Hnd Hp. destruct (vs !! p) as [v|] eqn:Hv.
  - apply py_dict_lookup_Some; [by apply NoDup_fst_zip|].
    by apply (elem_of_lookup_zip_with_2 pair ks vs k v (k, v) p).
  - destruct (py_dict (zip ks vs) !! k) as [v|] eqn:Hl; [|done].
    apply py_dict_lookup_Some in Hl; [|by apply NoDup_fst_zip].
    apply elem_of_lookup_zip_with in Hl as (i & x & y & [= <- <-] & Hx & Hy).
    assert (i = p) as -> by (by eapply NoDup_lookup). congruence.
Qed.

End Dict.

Lemma Fin_inj a b : Fin a = Fin b -> a = b.
Proof. intros E. change (from_option id a (finite_part (Fin a)) = b). by rewrite E. Qed.

Lemma of_int_zero z : of_int z = Fin 0 <-> z = 0%Z.
Proof.
  unfold of_int. split; [|intros ->; by rewrite Z2Qc_inj_0].
  intros E%Fin_inj. apply (Z2Qc_inj z 0). by rewrite Z2Qc_inj_0.
Qed.

Section Claims.
Context `{Externals}.

Lemma as_floats_replace_zero_nan c ys :
  as_floats (replace_zero_nan c) = Ok ys ->
  exists xs, as_floats c = Ok xs ∧ ys = zero_to_nan <$> xs.
Proof.
  destruct c as [w xs|xs| | |]; simpl; try done.
  - case_bool_decide as Hz; simpl; intros [= <-]; exists (of_int <$> xs);
      (split; [done|]); rewrite <- list_fmap_compose; [done|].
    apply Forall_fmap_ext, Forall_forall. intros z Hin. simpl.
    unfold zero_to_nan. rewrite decide_False; [done|].
    rewrite of_int_zero. by intros ->.
  - intros [= <-]. eauto.
Qed.

(** C3: for every row, the cleaner's [roi] is computed from the budget and
    revenue with zeros replaced by missing values; the denominator is never
    zero; [roi] is missing whenever the budget is 0 or missing (and whenever
    the revenue is); for a present non-zero budget and revenue it is
    (revenue - budget) / budget. *)
Theorem roi_never_divides_by_zero (df df' : frame) (sk : list string) :
  clean df = Ok (df', sk) ->
  exists bs rs rois,
    get_col "budget" (drop_duplicates df) ≫= as_floats = Ok bs ∧
    get_col "revenue" (drop_duplicates df) ≫= as_floats = Ok rs ∧
    get_col "roi" df' = Ok (FloatCol rois) ∧
    forall i b r, bs !! i = Some b -> rs !! i = Some r ->
      zero_to_nan b ≠ Fin 0 ∧
      rois !! i = Some (fdiv (fsub (zero_to_nan r) (zero_to_nan b)) (zero_to_nan b)) ∧
      (b = Fin 0 ∨ b = NaN -> rois !! i = Some NaN) ∧
      (r = Fin 0 ∨ r = NaN -> rois !! i = Some NaN) ∧
      (forall qb qr, b = Fin qb -> r = Fin qr -> qb ≠ 0 -> qr ≠ 0 ->
                     rois !! i = Some (Fin ((qr - qb) / qb))).
Proof.
  intros Hc.
  destruct (clean_untouched _ _ _ "roi" Hc) as (df1 & H1 & Hroi); [done|compute_done|done|].
  apply enrich_inv in H1 as (b0 & r0 & roi & Hb0 & Hr0 & Hrc & _ & _ & Hroi1 & _).
  unfold roi_column in Hrc.
  apply bind_Ok in Hrc as (rs' & Hrs' & Hrc). apply bind_Ok in Hrc as (bs' & Hbs' & [= <-]).
  apply as_floats_replace_zero_nan in Hrs' as (rs & Hrs & ->).
  apply as_floats_replace_zero_nan in Hbs' as (bs & Hbs & ->).
  exists bs, rs, (zip_with fdiv (zip_with fsub (zero_to_nan <$> rs) (zero_to_nan <$> bs))
                   (zero_to_nan <$> bs)).
  split_and!.
  - by rewrite Hb0.
  - by rewrite Hr0.
  - by rewrite Hroi, Hroi1.
  - intros i b r Hb Hr.
    assert (Hi : zip_with fdiv (zip_with fsub (zero_to_nan <$> rs) (zero_to_nan <$> bs))
                   (zero_to_nan <$> bs) !! i
                 = Some (fdiv (fsub (zero_to_nan r) (zero_to_nan b)) (zero_to_nan b))).
    { rewrite !lookup_zip_with, !list_lookup_fmap, Hb, Hr. done. }
    rewrite Hi. split_and!.
    + unfold zero_to_nan. by case_decide.
    + done.
    + intros [->| ->]; simpl; by destruct (zero_to_nan r).
    + intros [->| ->]; by simpl.
    + intros qb qr -> -> Hqb Hqr. unfold zero_to_nan.
      rewrite !decide_False by (by intros ?%Fin_inj). simpl.
      rewrite decide_False by done. done.
Qed.


(** C5: the language map pairs the distinct codes, in first-observed order,
    with the fixed names by position.  For every row, with [p] the number of
    distinct codes seen before the first occurrence of the row's code, the
    language name is the name at position [p], and the raw code when the
    name list has no position [p]. *)
Theorem language_name_by_position (df df' : frame) (sk : list string) :
  clean df = Ok (df', sk) ->
  exists ol,
    get_col "original_language" (drop_duplicates df) = Ok ol ∧
    get_col "language_name" df' = Ok (ObjCol (language_name (cells ol))) ∧
    NoDup (unique (cells ol)) ∧
    forall i c, cells ol !! i = Some c ->
      exists j p,
        cells ol !! j = Some c ∧ (c ∉ take j (cells ol)) ∧
        p = length (unique (take j (cells ol))) ∧
        unique (cells ol) !! p = Some c ∧
        language_map (cells ol) !! c = (lang_representation !! p) ∧
        language_name (cells ol) !! i
        = Some (match lang_representation !! p with
                | Some name => CStr name
                | None => c
                end).
Proof.
  intros Hc. pose proof Hc as (df1 & df2 & H1 & -> & H2 & H3)%clean_inv.
  apply finish_inv in H3 as (ol & Hol & Hname & _).
  apply add_log_columns_inv in H2 as (Hl & _).
  rewrite Hl in Hol by (intros c _; by apply not_eq_sym, log_name_not_plain).
  apply enrich_inv in H1 as (_ & _ & _ & _ & _ & _ & _ & _ & _ & Hother & _).
  rewrite Hother in Hol by compute_done.
  exists ol. split_and!; [done|done|apply NoDup_unique|].
  intros i c Hi. set (codes := cells ol) in *.
  destruct (list_find (fun x => x = c) codes) as [[j c']|] eqn:Hfind.
  2:{ apply list_find_None in Hfind. exfalso.
      apply (proj1 (Forall_forall _ _) Hfind c); [by eapply list_elem_of_lookup_2|done]. }
  apply list_find_Some in Hfind as (Hj & -> & Hmin).
  assert (Hnot : c ∉ take j codes).
  { intros (k & Hk)%list_elem_of_lookup. pose proof (lookup_lt_Some _ _ _ Hk) as Hlt.
    rewrite length_take in Hlt. rewrite lookup_take_lt in Hk by lia.
    apply (Hmin k c); [done|lia|done]. }
  assert (Hp : unique codes !! length (unique (take j codes)) = Some c).
  { assert (unique codes = unique (take j codes ++ c :: drop (S j) codes)) as ->
      by (by rewrite take_drop_middle).
    destruct (unique_first_seen (take j codes) c (drop (S j) codes) Hnot) as (rest & ->).
    by rewrite list_lookup_middle. }
  assert (Hmap : language_map codes !! c
                 = lang_representation !! length (unique (take j codes))).
  { unfold language_map. apply py_dict_zip_lookup; [apply NoDup_unique|done]. }
  exists j, (length (unique (take j codes))). split_and!; try done.
  unfold language_name. rewrite list_lookup_fmap, Hi. simpl. by rewrite Hmap.
Qed.


(** C6: deduplication by full-row equality is idempotent, so a second pass
    leaves the row count unchanged; a table of two rows that agree in every
    column is cleaned to a table of one row. *)
Theorem drop_duplicates_idempotent (df : frame) :
  rectangular df ->
  drop_duplicates (drop_duplicates df) = drop_duplicates df ∧
  nrows (drop_duplicates (drop_duplicates df)) = nrows (drop_duplicates df) ∧
  (nrows df = 2%nat -> row df 0 = row df 1 ->
   nrows (drop_duplicates df) = 1%nat ∧
   forall df' sk, clean df = Ok (df', sk) -> nrows df' = 1%nat).
Proof.
  intros Hr. pose proof (drop_duplicates_idemp df Hr) as Hid.
  split_and!; [done|by rewrite Hid|].
  intros Hn Hrow.
  assert (H1 : nrows (drop_duplicates df) = 1%nat).
  { rewrite <- length_rows, rows_drop_duplicates by done.
    unfold rows. rewrite Hn. simpl. rewrite Hrow. unfold unique. simpl.
    rewrite bool_decide_eq_true_2 by left. done. }
  split; [done|]. intros df' sk Hc.
  apply clean_inv in Hc as (df1 & df2 & He & -> & Hl & Hf).
  pose proof (drop_duplicates_rectangular df Hr) as Hh.
  unfold rectangular in Hh. rewrite H1 in Hh. change (height 1 (drop_duplicates df)) in Hh.
  apply enrich_inv in He as (_ & _ & _ & _ & _ & _ & _ & _ & _ & _ & _ & Hh1).
  apply add_log_columns_inv in Hl as (_ & _ & _ & Hh2).
  apply finish_inv in Hf as (ol & _ & Hname & _ & _ & Hh3).
  apply height_nrows; [auto|]. intros ->. done.
Qed.

(** The names the cleaner selects are columns of the enriched table, and
    each has a companion of dtype float64 in the cleaned table. *)
Lemma numeric_vars_columns df c : c ∈ numeric_vars df -> c ∈ columns df.
Proof.
  unfold numeric_vars, columns.
  intros ([n col] & -> & [_ Hin]%list_elem_of_filter)%list_elem_of_fmap.
  apply list_elem_of_fmap. by exists (n, col).
Qed.

Lemma skewed_cols_columns df c : c ∈ skewed_cols df -> c ∈ columns df.
Proof.
  unfold skewed_cols. intros [_ Hin]%list_elem_of_filter. by apply numeric_vars_columns.
Qed.

Lemma skewed_cols_intro df n col :
  n ∈ numeric_vars df -> n ∉ ["id"; "popularity"] ->
  get_col n df = Ok col -> col_skewed col = true -> n ∈ skewed_cols df.
Proof.
  intros Hnum Hn Hcol Hsk. unfold skewed_cols. apply list_elem_of_filter.
  split; [|done]. rewrite bool_decide_eq_true_2 by done. by rewrite Hcol, Hsk.
Qed.

Lemma enriched_plain_names df df1 :
  enrich df = Ok df1 ->
  (forall n, n ∈ columns df -> ends_with "_log" n = false) ->
  forall n, n ∈ columns df1 -> ends_with "_log" n = false.
Proof.
  intros He Hplain n Hn.
  apply enrich_inv in He as (_ & _ & _ & _ & _ & _ & _ & _ & _ & _ & Hcols & _).
  apply Hcols in Hn as [Hn|Hn].
  - apply Hplain. unfold drop_duplicates in Hn. by rewrite columns_select_rows in Hn.
  - repeat (apply elem_of_cons in Hn as [->|Hn]; [compute_done|]). by apply elem_of_nil in Hn.
Qed.

Lemma clip_lower0_cases x :
  x ≠ NaN ->
  clip_lower0 x = Inf false ∨ exists q, clip_lower0 x = Fin q ∧ 0 ≤ q.
Proof.
  destruct x as [|[]|q]; simpl; intros Hx; [done|right|by left|right].
  - by exists 0.
  - destruct (decide (q < 0)) as [|Hq]; [by exists 0|].
    exists q. split; [done|]. by apply Qcnot_lt_le.
Qed.

(** C7: for every numeric column of the enriched table whose absolute
    sample skew exceeds 1, the cleaned table holds the companion
    [np.log1p(column.clip(lower=0))]; clipping makes the argument of
    [log1p] non-negative, so every non-missing input has a defined result:
    never NaN, never minus infinity, and the value at 0 for a negative
    input. *)
Theorem log_companion_total (df df' : frame) (sk : list string) :
  clean df = Ok (df', sk) ->
  (forall n, n ∈ columns df -> ends_with "_log" n = false) ->
  exists df1,
    enrich df = Ok df1 ∧
    forall c col,
      c ∈ numeric_vars df1 -> c ∉ ["id"; "popularity"] ->
      get_col c df1 = Ok col -> col_skewed col = true ->
      exists xs,
        as_floats col = Ok xs ∧
        get_col (c +:+ "_log") df' = Ok (FloatCol (log1p_clip <$> xs)) ∧
        forall x, x ∈ xs -> x ≠ NaN ->
          (clip_lower0 x = Inf false ∨ exists q, clip_lower0 x = Fin q ∧ 0 ≤ q) ∧
          log1p_clip x ≠ NaN ∧ log1p_clip x ≠ Inf true ∧
          (forall q, x = Fin q -> q < 0 -> log1p_clip x = Fin (log1p_finite 0)) ∧
          (forall q, x = Fin q -> 0 ≤ q -> log1p_clip x = Fin (log1p_finite q)).
Proof.
  intros Hc Hplain. pose proof Hc as (df1 & df2 & H1 & -> & H2 & H3)%clean_inv.
  exists df1. split; [done|]. intros c col Hnum Hc0 Hcol Hsk.
  pose proof (skewed_cols_intro _ _ _ Hnum Hc0 Hcol Hsk) as Hcsk.
  assert (Hsplain : forall c', c' ∈ skewed_cols df1 -> ends_with "_log" c' = false).
  { intros c' Hc'. eapply enriched_plain_names; [done..|]. by apply skewed_cols_columns. }
  destruct (add_log_columns_values _ _ _ H2 Hsplain c Hcsk) as (xs & Hxs & Hlog).
  rewrite Hcol in Hxs. simpl in Hxs.
  apply finish_inv in H3 as (_ & _ & _ & Hf & _).
  exists xs. split_and!; [done| |].
  - rewrite Hf; [done| |].
    + intros Hd. repeat (apply elem_of_cons in Hd as [Hd|Hd];
        [by apply (log_name_not_plain c) in Hd; [|compute_done]|]).
      by apply elem_of_nil in Hd.
    + by apply log_name_not_plain.
  - intros x _ Hx. pose proof (clip_lower0_cases x Hx) as Hcl.
    split; [done|]. unfold log1p_clip.
    assert (Hpos : forall q, 0 ≤ q -> np_log1p (Fin q) = Fin (log1p_finite q)).
    { intros q Hq. simpl.
      assert (-1 < 0) by done.
      rewrite !decide_False; [done| |].
      - intros ->. by apply (Qcle_not_lt _ _ Hq).
      - apply Qcle_not_lt. apply Qclt_le_weak. by eapply Qclt_le_trans. }
    split_and!.
    + destruct Hcl as [->|(q & -> & Hq)]; [done|]. by rewrite Hpos.
    + destruct Hcl as [->|(q & -> & Hq)]; [done|]. by rewrite Hpos.
    + intros q -> Hq. simpl clip_lower0. rewrite decide_True by done. by apply Hpos.
    + intros q -> Hq. simpl clip_lower0.
      rewrite decide_False by (by apply Qcle_not_lt). by apply Hpos.
Qed.


(** *** The trainer's feature columns *)

Lemma elem_of_feature_cols df n :
  n ∈ feature_cols df <->
  exists c, (n, c) ∈ df ∧ n ≠ "popularity" ∧ is_feature_dtype (col_dtype c) = true.
Proof.
  unfold feature_cols. rewrite list_elem_of_fmap. split.
  - intros ([n' c] & -> & Hin). apply list_elem_of_filter in Hin as [Hp Hin].
    simpl in Hp. apply andb_prop_elim in Hp as [Hne Hd].
    exists c. split_and!; [done|by apply bool_decide_unpack in Hne|by apply Is_true_eq_true].
  - intros (c & Hin & Hne & Hd). exists (n, c). split; [done|].
    apply list_elem_of_filter. split; [|done]. simpl.
    rewrite bool_decide_eq_true_2 by done. by rewrite Hd.
Qed.

Lemma elem_of_select_rows m df n c :
  (n, c) ∈ select_rows m df <-> exists c0, (n, c0) ∈ df ∧ c = col_select m c0.
Proof.
  unfold select_rows. rewrite list_elem_of_fmap. split.
  - intros ([n0 c0] & [= -> ->] & Hin). by exists c0.
  - intros (c0 & Hin & ->). by exists (n, c0).
Qed.

(** [prepare] removes exactly the columns on the drop list; the rows it
    drops do not change a dtype. *)
Lemma elem_of_prepare df sk n c :
  (n, c) ∈ prepare df sk ->
  (n ∉ trainer_drop sk) ∧ exists c0, (n, c0) ∈ df ∧ col_dtype c = col_dtype c0.
Proof.
  unfold prepare. fold (trainer_drop sk).
  set (d := drop_columns _ df).
  assert (Hd : forall c0, (n, c0) ∈ d -> (n ∉ trainer_drop sk) ∧ (n, c0) ∈ df).
  { intros c0 [Hin Hn]%elem_of_drop_columns. split; [|done].
    intros Hdrop. apply Hn. apply list_elem_of_filter. split; [|done].
    unfold columns. apply list_elem_of_fmap. by exists (n, c0). }
  case_bool_decide.
  - unfold dropna. intros (c0 & Hin & ->)%elem_of_select_rows.
    destruct (Hd c0 Hin). split; [done|]. exists c0. by rewrite col_dtype_select.
  - intros Hin. destruct (Hd c Hin). eauto.
Qed.

Lemma prepare_keeps df sk n c0 :
  (n, c0) ∈ df -> n ∉ trainer_drop sk ->
  exists c, (n, c) ∈ prepare df sk ∧ col_dtype c = col_dtype c0.
Proof.
  intros Hin Hn. unfold prepare. fold (trainer_drop sk).
  set (d := drop_columns _ df).
  assert (Hd : (n, c0) ∈ d).
  { apply elem_of_drop_columns. split; [done|]. simpl.
    intros [_ Hdrop]%list_elem_of_filter. done. }
  case_bool_decide.
  - exists (col_select ((fun r => negb (existsb (fun oc => from_option cell_isna false oc) r))
                          <$> rows d) c0).
    split; [|apply col_dtype_select]. apply elem_of_select_rows. by exists c0.
  - by exists c0.
Qed.

Lemma get_cols_names names df X : get_cols names df = Ok X -> X.*1 = names.
Proof.
  unfold get_cols. revert X. induction names as [|n names IH]; intros X; simpl.
  - by intros [= <-].
  - intros Hx. apply bind_Ok in Hx as ([n' c] & Hnc & Hx).
    apply bind_Ok in Hnc as (c' & _ & [= <- <-]).
    apply bind_Ok in Hx as (X' & HX' & [= <-]). simpl. f_equal. by apply IH.
Qed.

Lemma importance_series_names names values ser :
  importance_series names values = Ok ser -> ser.*1 ≡ₚ names.
Proof.
  unfold importance_series. case_decide as Hl; [|done]. intros [= <-].
  rewrite merge_sort_Permutation. rewrite fst_zip by lia. done.
Qed.

Lemma train_inv df sk fs ser :
  train df sk = Ok (fs, ser) ->
  fs = feature_cols (prepare df sk) ∧ ser.*1 ≡ₚ fs.
Proof.
  unfold train, design, importances. intros Ht.
  apply bind_Ok in Ht as ([[fs' X] y] & Hd & Ht).
  apply bind_Ok in Hd as (X' & HX & Hd). apply bind_Ok in Hd as (y' & Hy & [= <- <- <-]).
  apply bind_Ok in Ht as (ser' & Hser & [= <- <-]). simpl in *.
  apply bind_Ok in Hser as (imps & _ & Hser).
  split; [done|]. by eapply importance_series_names.
Qed.

(** C1 (as the code has it): the trainer's features exclude the identifier,
    title, release date, spoken languages and every column named in the
    skew-adjusted set, i.e. the skewed source columns.  The log1p companions
    are not removed: for each skewed column [c] the column [c_log] is a
    feature, and the persisted importance table lists exactly the features. *)
Theorem features_drop_sources_keep_companions (df df' : frame) (sk : list string) :
  clean df = Ok (df', sk) ->
  (forall n, n ∈ columns df -> ends_with "_log" n = false) ->
  (forall n, n ∈ ["id"; "title"; "release_date"; "spoken_languages"] ++ sk ->
             n ∉ feature_cols (prepare df' sk)) ∧
  (forall c, c ∈ sk -> c +:+ "_log" ∈ feature_cols (prepare df' sk)) ∧
  (forall fs ser, train df' sk = Ok (fs, ser) ->
                  fs = feature_cols (prepare df' sk) ∧ ser.*1 ≡ₚ fs).
Proof.
  intros Hc Hplain. split_and!.
  - intros n Hn (c & Hin & _)%elem_of_feature_cols.
    apply elem_of_prepare in Hin as [Hdrop _]. by apply Hdrop.
  - intros c Hcsk.
    pose proof Hc as (df1 & df2 & H1 & -> & H2 & H3)%clean_inv.
    assert (Hsplain : forall c', c' ∈ skewed_cols df1 -> ends_with "_log" c' = false).
    { intros c' Hc'. eapply enriched_plain_names; [done..|]. by apply skewed_cols_columns. }
    apply add_log_columns_inv in H2 as (_ & Hfloat & _).
    destruct (Hfloat c Hcsk) as (ys & Hys).
    apply finish_inv in H3 as (_ & _ & _ & Hf & _).
    rewrite <- Hf in Hys.
    2:{ intros Hd. repeat (apply elem_of_cons in Hd as [Hd|Hd];
          [by apply (log_name_not_plain c) in Hd; [|compute_done]|]).
        by apply elem_of_nil in Hd. }
    2:{ by apply log_name_not_plain. }
    apply get_col_elem in Hys.
    destruct (prepare_keeps df' (skewed_cols df1) _ _ Hys) as (c' & Hin & Hdt).
    { unfold trainer_drop. rewrite elem_of_app. intros [Hd|Hd].
      - repeat (apply elem_of_cons in Hd as [Hd|Hd];
          [by apply (log_name_not_plain c) in Hd; [|compute_done]|]).
        by apply elem_of_nil in Hd.
      - apply Hsplain in Hd. by rewrite ends_with_app in Hd. }
    apply elem_of_feature_cols. exists c'. split_and!; [done| |by rewrite Hdt].
    by apply log_name_not_plain.
  - apply train_inv.
Qed.

(** C9: without the raw file the cleaner logs one error record and raises
    the file-not-found failure; no file is written, so no cleaned table is
    produced, and the trainer stops with the same failure. *)
Theorem missing_raw_file_is_fatal (w : world) :
  files w !! raw_file = None ->
  load_and_process_data w
  = (Raise FileNotFoundError,
     World (files w) (log w ++ [LogError ("File not found: " +:+ raw_file)])) ∧
  files (load_and_process_data w).2 = files w ∧
  (train_rf_model w).1 = Raise FileNotFoundError ∧
  files (train_rf_model w).2 = files w.
Proof.
  intros Hnone. unfold train_rf_model, load_and_process_data. simpl.
  rewrite Hnone. done.
Qed.


(** *** Loading the cleaned table in the dashboard *)

Lemma mapM_Ok_lookup {A B} (f : A -> result B) xs ys i y :
  mapM f xs = Ok ys -> ys !! i = Some y ->
  exists x, xs !! i = Some x ∧ f x = Ok y.
Proof.
  revert ys i. induction xs as [|x xs IH]; intros ys i; simpl.
  - intros [= <-]. done.
  - intros Hm. apply bind_Ok in Hm as (y0 & Hy0 & Hm).
    apply bind_Ok in Hm as (ys' & Hys' & [= <-]).
    destruct i as [|i]; simpl.
    + intros [= <-]. eauto.
    + intros Hi. by apply (IH ys').
Qed.

Lemma parse_list_columns_inv names df df' :
  parse_list_columns names df = Ok df' ->
  NoDup names ->
  (forall n, n ∉ names -> get_col n df' = get_col n df) ∧
  (forall n, n ∈ columns df' <-> n ∈ columns df) ∧
  (forall n, n ∈ names -> n ∈ columns df ->
     exists c xs,
       get_col n df = Ok c ∧ mapM literal_eval (cells c) = Ok xs ∧
       get_col n df' = Ok (ObjCol (unknown_if_empty <$> xs))).
Proof.
  revert df. induction names as [|col names IH]; intros df Hp Hnd; simpl in Hp.
  - injection Hp as <-. split_and!; [done..|]. intros n Hn. by apply elem_of_nil in Hn.
  - apply NoDup_cons in Hnd as [Hcol Hnd]. case_decide as Hin.
    + apply bind_Ok in Hp as (c & Hc & Hp). apply bind_Ok in Hp as (c' & Hc' & Hp).
      unfold parse_list_column in Hc'. apply bind_Ok in Hc' as (xs & Hxs & [= <-]).
      apply IH in Hp as (Hother & Hcols & Hparsed); [|done]. split_and!.
      * intros n Hn. apply not_elem_of_cons in Hn as [Hne Hn].
        rewrite Hother by done. by apply get_set_ne.
      * intros n. rewrite Hcols, elem_of_columns_set_col. naive_solver.
      * intros n [->|Hn]%elem_of_cons Hnc.
        -- exists c, xs. split_and!; [done..|]. rewrite Hother by done. apply get_set_eq.
        -- destruct (Hparsed n Hn) as (c0 & xs0 & H0 & Hx0 & Hg0).
           { apply elem_of_columns_set_col. by right. }
           exists c0, xs0. split_and!; [|done..].
           rewrite get_set_ne in H0; [done|]. by intros ->.
    + apply IH in Hp as (Hother & Hcols & Hparsed); [|done]. split_and!.
      * intros n Hn. apply not_elem_of_cons in Hn as [Hne Hn]. by apply Hother.
      * done.
      * intros n [->|Hn]%elem_of_cons Hnc; [done|]. by apply Hparsed.
Qed.

Lemma unknown_if_empty_non_empty x : unknown_if_empty x ≠ CList [].
Proof. by destruct x as [| | | |[|??]|]. Qed.

(** C2 (as the code has it): the cleaner does not touch the list-valued
    fields: genres and production countries reach the cleaned table as
    read, an empty list included, and spoken languages is dropped.  The
    dashboard, when it loads a table, replaces the empty list by
    ["Unknown"] in each of the three fields that is present, so every value
    of these fields is non-empty after loading. *)
Theorem list_fields_filled_on_load (df df' : frame) (sk : list string) :
  clean df = Ok (df', sk) ->
  (get_col "genres" df' = get_col "genres" (drop_duplicates df) ∧
   get_col "production_countries" df'
   = get_col "production_countries" (drop_duplicates df) ∧
   "spoken_languages" ∉ columns df') ∧
  forall cf d, load cf = Ok d ->
    forall col, col ∈ list_columns -> col ∈ columns cf ->
      exists c xs,
        get_col col cf = Ok c ∧ mapM literal_eval (cells c) = Ok xs ∧
        get_col col (l_df d) = Ok (ObjCol (unknown_if_empty <$> xs)) ∧
        (forall y, y ∈ unknown_if_empty <$> xs -> y ≠ CList []) ∧
        (forall i, xs !! i = Some (CList []) ->
                   (unknown_if_empty <$> xs) !! i = Some (CList ["Unknown"])) ∧
        (forall i x, xs !! i = Some x -> x ≠ CList [] ->
                     (unknown_if_empty <$> xs) !! i = Some x).
Proof.
  intros Hc. split.
  - destruct (clean_untouched _ _ _ "genres" Hc) as (df1 & H1 & Hg);
      [compute_done|compute_done|done|].
    destruct (clean_untouched _ _ _ "production_countries" Hc) as (df1' & H1' & Hp);
      [compute_done|compute_done|done|].
    rewrite H1 in H1'. injection H1' as <-.
    pose proof H1 as (_&_&_&_&_&_&_&_&_& Hother &_)%enrich_inv.
    rewrite Hg, Hp, !Hother by compute_done. split_and!; [done..|].
    apply clean_inv in Hc as (? & df2 & _ & _ & _ & Hf).
    apply finish_inv in Hf as (_ & _ & _ & _ & Hcols & _).
    intros [_ Hn]%Hcols. apply Hn. compute_done.
  - intros cf d Hl col Hcol Hin. unfold load in Hl.
    apply bind_Ok in Hl as (ry & _ & Hl). apply bind_Ok in Hl as (ys & _ & Hl).
    apply bind_Ok in Hl as (mn & _ & Hl). apply bind_Ok in Hl as (mx & _ & Hl).
    apply bind_Ok in Hl as (cf' & Hp & [= <-]). simpl.
    apply parse_list_columns_inv in Hp as (_ & _ & Hparsed); [|compute_done].
    destruct (Hparsed col Hcol Hin) as (c & xs & Hc0 & Hxs & Hg).
    exists c, xs. split_and!; [done..| | |].
    + intros y (x & -> & _)%list_elem_of_fmap. apply unknown_if_empty_non_empty.
    + intros i Hi. by rewrite list_lookup_fmap, Hi.
    + intros i x Hi Hx. rewrite list_lookup_fmap, Hi. simpl. f_equal.
      by destruct x as [| | | |[|??]|].
Qed.

(** *** Pie charts *)

Lemma length_value_counts xs :
  length (value_counts xs) = length (unique (filter (fun x => cell_isna x = false) xs)).
Proof. unfold value_counts. by rewrite merge_sort_Permutation, length_fmap. Qed.

Lemma with_other_shape counts :
  exists n,
    with_other counts = take top_n counts ++ [(CStr "Other", n)] ∧
    last (with_other counts) = Some (CStr "Other", n) ∧
    length (with_other counts) = (length counts `min` top_n + 1)%nat ∧
    n = foldr Nat.add 0%nat (drop top_n counts).*2 ∧
    ((length counts ≤ top_n)%nat -> n = 0%nat).
Proof.
  unfold with_other. eexists. split_and!; [done| | |done|].
  - by rewrite last_snoc.
  - rewrite length_app, length_take. cbn [length]. lia.
  - intros Hl. by rewrite drop_ge.
Qed.

End Claims.

(** *** The gate *)
Module GateFacts.
Import Gate.

Lemma count_insert (P : task -> Prop) `{forall t, Decision (P t)} ts i t t' :
  ts !! i = Some t ->
  (length (filter P (<[i := t']> ts)) + (if decide (P t) then 1 else 0)
   = length (filter P ts) + (if decide (P t') then 1 else 0))%nat.
Proof.
  revert i. induction ts as [|t0 ts IH]; intros i Hi; [done|].
  destruct i as [|i]; simpl in *.
  - injection Hi as ->. rewrite !filter_cons.
    repeat case_decide; simpl; lia.
  - rewrite !filter_cons. specialize (IH i Hi).
    destruct (decide (P t)), (decide (P t')), (decide (P t0)); simpl in *; lia.
Qed.

Lemma outstanding_init {A} (total_movies : list A) : outstanding (init total_movies) = 0%nat.
Proof.
  unfold outstanding, init. simpl.
  induction (take ceiling total_movies) as [|x l IH]; [done|].
  rewrite fmap_cons, filter_cons. by rewrite decide_False.
Qed.

Lemma step_invariant s s' :
  step s s' ->
  (outstanding s + sem_value s = limit)%nat ->
  (outstanding s' + sem_value s' = limit)%nat.
Proof.
  intros Hstep Hinv. destruct Hstep as [v ts i Hi Hv|v ts i r Hi]; unfold outstanding in *; simpl in *.
  - pose proof (count_insert (fun t => t = InFlight) ts i Waiting InFlight Hi) as Hc.
    rewrite decide_False, decide_True in Hc by done. lia.
  - pose proof (count_insert (fun t => t = InFlight) ts i InFlight
                  (Returned (outcome r)) Hi) as Hc.
    rewrite decide_True, decide_False in Hc by done. lia.
Qed.

(** C8: however the event loop interleaves the coroutines, and however many
    movies were discovered, the coroutines inside the semaphore block, which
    are the only ones with a request outstanding, number at most 30; they
    and the free slots always add up to 30. *)
Theorem outstanding_at_most_30 {A} (total_movies : list A) (s : state) :
  rtc step (init total_movies) s ->
  (outstanding s ≤ 30)%nat ∧ (outstanding s + sem_value s = 30)%nat ∧
  (length (tasks s) ≤ Z.to_nat 20000)%nat.
Proof.
  intros Hrun.
  assert (Hinv : (outstanding s + sem_value s = limit)%nat
                 ∧ length (tasks s) = length (tasks (init total_movies))).
  { revert s Hrun. apply rtc_ind_r.
    - split; [|done]. by rewrite outstanding_init.
    - intros s1 s2 _ Hstep [IH1 IH2]. split; [by eapply step_invariant|].
      rewrite <- IH2. destruct Hstep; simpl; by rewrite length_insert. }
  destruct Hinv as [Hinv Hlen]. unfold limit in Hinv. split_and!; [lia|done|].
  rewrite Hlen. unfold init. simpl. rewrite length_fmap, length_take.
  unfold ceiling. lia.
Qed.

End GateFacts.

(** *** Interpolation of the yearly series *)
Section Interp.

Lemma valid_from_app n l l' :
  valid_from n (l ++ l') = valid_from n l ++ valid_from (n + length l) l'.
Proof.
  revert n. induction l as [|y l IH]; intros n; simpl.
  - by rewrite Nat.add_0_r.
  - rewrite IH. replace (S n + length l)%nat with (n + S (length l))%nat by lia.
    by destruct (isnan y).
Qed.

Lemma valid_from_nans n l : Forall (fun y => y = NaN) l -> valid_from n l = [].
Proof.
  intros Hl. revert n. induction Hl as [|y l -> _ IH]; intros n; simpl; [done|apply IH].
Qed.

Lemma valid_from_elem n l p :
  p ∈ valid_from n l ->
  (n ≤ p.1 < n + length l)%nat ∧ l !! (p.1 - n)%nat = Some p.2 ∧ isnan p.2 = false.
Proof.
  revert n. induction l as [|y l IH]; intros n; simpl.
  - by intros ?%elem_of_nil.
  - assert (Hstep : p ∈ valid_from (S n) l ->
      (n ≤ p.1 < n + S (length l))%nat
      ∧ (y :: l) !! (p.1 - n)%nat = Some p.2 ∧ isnan p.2 = false).
    { intros (Hb & Hl & Hv)%IH. split; [lia|]. split; [|done].
      replace (p.1 - n)%nat with (S (p.1 - S n)) by lia. done. }
    destruct (isnan y) eqn:Hy; [done|].
    intros [->|Hin]%elem_of_cons; [|by apply Hstep].
    simpl. rewrite Nat.sub_diag. split; [lia|done].
Qed.

Lemma valid_from_increasing m v n l : (m < n)%nat -> increasing (m, v) (valid_from n l).
Proof.
  revert m v n. induction l as [|y l IH]; intros m v n Hmn; simpl; [done|].
  destruct (isnan y); [apply IH; lia|]. simpl. split; [done|]. apply IH. lia.
Qed.

Lemma valid_from_head_increasing n l p0 pts :
  valid_from n l = p0 :: pts -> increasing p0 pts.
Proof.
  revert n. induction l as [|y l IH]; intros n; simpl; [done|].
  destruct (isnan y); [apply IH|].
  intros E. assert (p0 = (n, y)) as -> by congruence.
  assert (pts = valid_from (S n) l) as -> by congruence.
  apply valid_from_increasing. lia.
Qed.

Lemma of_nat_sub_ne n m : n ≠ m -> Qc_of_Z (Z.of_nat n) + - Qc_of_Z (Z.of_nat m) ≠ 0.
Proof.
  intros Hne E. apply Hne.
  assert (Qc_of_Z (Z.of_nat n) = Qc_of_Z (Z.of_nat m)) as E'.
  { rewrite <- (Qcplus_0_r (Qc_of_Z (Z.of_nat m))), <- E. ring. }
  apply Z2Qc_inj in E'. lia.
Qed.

(** On finite ends the segment is the straight line through them. *)
Lemma interp_segment_finite x j k a b :
  j ≠ k ->
  interp_segment x (j, Fin a) (k, Fin b)
  = Fin (a + (b - a) / (Qc_of_Z (Z.of_nat k) - Qc_of_Z (Z.of_nat j))
             * (Qc_of_Z (Z.of_nat x) - Qc_of_Z (Z.of_nat j))).
Proof.
  intros Hjk. unfold interp_segment, of_nat, of_int. simpl.
  rewrite decide_False by (by apply of_nat_sub_ne). simpl. f_equal.
  unfold Qcminus. ring.
Qed.

Lemma np_interp_from_between x p pre pj pk rest :
  Forall (fun r => (r.1 < x)%nat) pre -> (pj.1 < x < pk.1)%nat ->
  np_interp_from x p (pre ++ pj :: pk :: rest) = interp_segment x pj pk.
Proof.
  intros Hpre Hx. revert p. induction Hpre as [|r pre Hr _ IH]; intros p; simpl.
  - rewrite decide_False by lia. rewrite decide_True by lia.
    rewrite decide_False by lia. done.
  - rewrite decide_False by lia. apply IH.
Qed.

Lemma np_interp_between x pre pj pk rest :
  Forall (fun r => (r.1 < x)%nat) pre -> (pj.1 < x < pk.1)%nat ->
  np_interp x (pre ++ pj :: pk :: rest) = interp_segment x pj pk.
Proof.
  intros Hpre Hx. destruct Hpre as [|r pre Hr Hpre]; simpl.
  - rewrite decide_False by lia. rewrite decide_True by lia.
    rewrite decide_False by lia. done.
  - rewrite decide_False by lia. by apply np_interp_from_between.
Qed.

Lemma np_interp_from_finite x p pts :
  (exists q, p.2 = Fin q) -> Forall (fun r => exists q, r.2 = Fin q) pts ->
  increasing p pts -> exists q, np_interp_from x p pts = Fin q.
Proof.
  intros Hp Hpts. revert p Hp. induction Hpts as [|p' pts Hp' _ IH]; intros p Hp Hinc; simpl.
  - done.
  - destruct Hinc as [Hlt Hinc]. case_decide; [|by apply IH].
    case_decide; [done|]. destruct p as [j vj], p' as [k vk]. simpl in *.
    destruct Hp as [a ->], Hp' as [b ->]. rewrite interp_segment_finite by lia. eauto.
Qed.

(** The decomposition of a series around a gap between two valid values. *)
Lemma gap_split ys j k vj vk :
  (j < k)%nat -> ys !! j = Some vj -> ys !! k = Some vk ->
  (forall t, (j < t < k)%nat -> ys !! t = Some NaN) ->
  exists nans,
    ys = take j ys ++ vj :: nans ++ vk :: drop (S k) ys ∧
    Forall (fun y => y = NaN) nans ∧ length nans = (k - j - 1)%nat.
Proof.
  intros Hjk Hj Hk Hgap. exists (take (k - j - 1) (drop (S j) ys)).
  pose proof (lookup_lt_Some _ _ _ Hk) as Hlen. split_and!.
  - rewrite <- (take_drop_middle ys j vj Hj) at 1. do 2 f_equal.
    rewrite <- (take_drop (k - j - 1) (drop (S j) ys)) at 1. f_equal.
    rewrite drop_drop.
    replace (S j + (k - j - 1))%nat with k by lia.
    by apply drop_S.
  - apply Forall_forall. intros y (t & Ht)%list_elem_of_lookup.
    pose proof (lookup_lt_Some _ _ _ Ht) as Hlt. rewrite length_take in Hlt.
    rewrite lookup_take_lt, lookup_drop in Ht by lia.
    rewrite Hgap in Ht by lia. by injection Ht.
  - rewrite length_take, length_drop. lia.
Qed.

Lemma valid_from_gap ys j k vj vk :
  (j < k)%nat -> ys !! j = Some vj -> ys !! k = Some vk ->
  isnan vj = false -> isnan vk = false ->
  (forall t, (j < t < k)%nat -> ys !! t = Some NaN) ->
  exists pre rest,
    valid_from 0 ys = pre ++ (j, vj) :: (k, vk) :: rest ∧
    Forall (fun r => (r.1 < j)%nat) pre.
Proof.
  intros Hjk Hj Hk Hvj Hvk Hgap.
  destruct (gap_split ys j k vj vk) as (nans & Hys & Hnans & Hlen); [done..|].
  pose proof (lookup_lt_Some _ _ _ Hj) as Hjlen.
  exists (valid_from 0 (take j ys)), (valid_from (S k) (drop (S k) ys)). split.
  - rewrite Hys at 1. rewrite valid_from_app. f_equal.
    rewrite length_take. simpl. rewrite Hvj.
    replace (j `min` length ys)%nat with j by lia. f_equal.
    rewrite valid_from_app, (valid_from_nans _ nans) by done. simpl.
    rewrite Hvk, Hlen. replace (S (j + (k - j - 1)))%nat with k by lia. done.
  - apply Forall_forall. intros r (Hb & _)%valid_from_elem.
    rewrite length_take in Hb. lia.
Qed.

(** Between two finite values with only missing ones in between, the
    result lies on the straight line through them. *)
Lemma interpolate_between ys j i k a b :
  (j < i < k)%nat -> ys !! j = Some (Fin a) -> ys !! k = Some (Fin b) ->
  (forall t, (j < t < k)%nat -> ys !! t = Some NaN) ->
  interpolate ys !! i
  = Some (Fin (a + (b - a) / (Qc_of_Z (Z.of_nat k) - Qc_of_Z (Z.of_nat j))
                   * (Qc_of_Z (Z.of_nat i) - Qc_of_Z (Z.of_nat j)))).
Proof.
  intros Hi Hj Hk Hgap.
  destruct (valid_from_gap ys j k (Fin a) (Fin b)) as (pre & rest & Hv & Hpre);
    [lia|done..|].
  unfold interpolate. rewrite Hv.
  assert (Hinterp : np_interp i (pre ++ (j, Fin a) :: (k, Fin b) :: rest)
                    = interp_segment i (j, Fin a) (k, Fin b)).
  { apply np_interp_between; [|simpl; lia].
    eapply Forall_impl; [exact Hpre|]. simpl. intros; lia. }
  assert (Hfirst : forall p0 l, pre ++ (j, Fin a) :: (k, Fin b) :: rest = p0 :: l ->
                                (p0.1 ≤ j)%nat).
  { destruct Hpre as [|r pre Hr _]; simpl; intros p0 l [= <- _]; simpl; lia. }
  destruct (pre ++ _) as [|p0 l] eqn:Hpts; [by destruct pre|].
  rewrite list_lookup_imap, (Hgap i Hi). cbn -[np_interp].
  rewrite decide_False by (specialize (Hfirst p0 l eq_refl); lia).
  rewrite Hinterp, interp_segment_finite by lia. done.
Qed.

(** A value stays missing after interpolation only before the first valid
    value of the series. *)
Lemma interpolate_nan_leading ys i t v :
  Forall nan_or_finite ys ->
  interpolate ys !! i = Some NaN -> (t ≤ i)%nat -> ys !! t = Some v -> v = NaN.
Proof.
  intros Hfin Hi Hti Ht. destruct (isnan v) eqn:Hv; [by destruct v|]. exfalso.
  pose proof (lookup_lt_Some _ _ _ Ht) as Htlen.
  assert (Hpt : (t, v) ∈ valid_from 0 ys).
  { rewrite <- (take_drop_middle ys t v Ht), valid_from_app. apply elem_of_app. right.
    simpl. rewrite Hv, length_take.
    replace (t `min` length ys)%nat with t by lia. left. }
  unfold interpolate in Hi.
  destruct (valid_from 0 ys) as [|p0 pts] eqn:Hpts; [by apply elem_of_nil in Hpt|].
  rewrite list_lookup_imap in Hi.
  destruct (ys !! i) as [y|] eqn:Hy; [|done]. simpl in Hi.
  destruct (isnan y) eqn:Hnan; [|injection Hi as ->; done].
  assert (Hall : Forall (fun r => exists q, r.2 = Fin q) (p0 :: pts)).
  { rewrite <- Hpts. apply Forall_forall. intros r (_ & Hr & Hrv)%valid_from_elem.
    apply list_elem_of_lookup_2 in Hr.
    destruct (proj1 (Forall_forall _ _) Hfin _ Hr) as [E|E]; [|done].
    by rewrite E in Hrv. }
  assert (Hinc : increasing p0 pts) by (by eapply valid_from_head_increasing).
  assert (Hp0 : (p0.1 ≤ t)%nat).
  { apply elem_of_cons in Hpt as [<-|Hpt]; [done|].
    clear -Hinc Hpt. revert p0 Hinc. induction pts as [|p' pts IH]; intros p0 Hinc.
    - by apply elem_of_nil in Hpt.
    - destruct Hinc as [Hlt Hinc]. apply elem_of_cons in Hpt as [<-|Hpt]; [simpl in *; lia|].
      specialize (IH Hpt p' Hinc). lia. }
  rewrite decide_False in Hi by lia.
  inversion Hall as [|? ? Hp0f Hptsf]; subst.
  simpl in Hi. case_decide.
  - destruct Hp0f as [q Hq]. rewrite Hq in Hi. done.
  - destruct (np_interp_from_finite i p0 pts Hp0f Hptsf Hinc) as [q Hq].
    rewrite Hq in Hi. done.
Qed.


(** After the last valid value the series continues with that value. *)
Lemma np_interp_from_last x p pre q :
  Forall (fun r => (r.1 < x)%nat) pre -> (q.1 < x)%nat ->
  np_interp_from x p (pre ++ [q]) = q.2.
Proof.
  intros Hpre Hq. revert p. induction Hpre as [|r pre Hr _ IH]; intros p; simpl.
  - by rewrite decide_False by lia.
  - rewrite decide_False by lia. apply IH.
Qed.

Lemma interpolate_trailing ys j i v :
  (j < i < length ys)%nat -> ys !! j = Some v -> isnan v = false ->
  (forall t, (j < t < length ys)%nat -> ys !! t = Some NaN) ->
  interpolate ys !! i = Some v.
Proof.
  intros Hi Hj Hv Htail.
  assert (Hys : ys = take j ys ++ v :: drop (S j) ys) by (by rewrite take_drop_middle).
  assert (Hnans : Forall (fun y => y = NaN) (drop (S j) ys)).
  { apply Forall_forall. intros y (t & Ht)%list_elem_of_lookup.
    pose proof (lookup_lt_Some _ _ _ Ht) as Hlt. rewrite length_drop in Hlt.
    rewrite lookup_drop, Htail in Ht by lia. by injection Ht. }
  assert (Hpts : valid_from 0 ys = valid_from 0 (take j ys) ++ [(j, v)]).
  { rewrite Hys at 1. rewrite valid_from_app, length_take. simpl. rewrite Hv.
    replace (j `min` length ys)%nat with j by lia.
    by rewrite (valid_from_nans _ (drop (S j) ys)) by exact Hnans. }
  assert (Hpre : Forall (fun r => (r.1 < j)%nat) (valid_from 0 (take j ys))).
  { apply Forall_forall. intros r (Hb & _)%valid_from_elem.
    rewrite length_take in Hb. lia. }
  assert (Hpre' : Forall (fun r => (r.1 < i)%nat) (valid_from 0 (take j ys))).
  { eapply Forall_impl; [exact Hpre|]. simpl. intros; lia. }
  unfold interpolate. rewrite Hpts.
  assert (Hv' : np_interp i (valid_from 0 (take j ys) ++ [(j, v)]) = v).
  { destruct Hpre' as [|r pre Hr Hpre']; simpl.
    - by destruct (decide (i ≤ j)%nat).
    - rewrite decide_False by lia. apply np_interp_from_last; [done|simpl; lia]. }
  assert (Hfirst : forall p0 l, valid_from 0 (take j ys) ++ [(j, v)] = p0 :: l ->
                                (p0.1 ≤ j)%nat).
  { destruct Hpre as [|r pre Hr _]; simpl; intros p0 l E.
    - assert (p0 = (j, v)) as -> by congruence. done.
    - assert (p0 = r) as -> by congruence. lia. }
  destruct (valid_from 0 (take j ys) ++ [(j, v)]) as [|p0 l] eqn:E.
  { by destruct (valid_from 0 (take j ys)). }
  rewrite list_lookup_imap, (Htail i) by lia. cbn -[np_interp].
  rewrite decide_False by (specialize (Hfirst p0 l eq_refl); lia).
  by rewrite Hv'.
Qed.

Lemma length_interpolate ys : length (interpolate ys) = length ys.
Proof. unfold interpolate. destruct (valid_from 0 ys); [done|]. by rewrite length_imap. Qed.

Lemma interpolate_valid ys i y :
  ys !! i = Some y -> isnan y = false -> interpolate ys !! i = Some y.
Proof.
  intros Hi Hy. unfold interpolate. destruct (valid_from 0 ys); [done|].
  rewrite list_lookup_imap, Hi. simpl. by rewrite Hy.
Qed.

(** *** Grouping and reindexing *)

Lemma group_keys_elem keys k : k ∈ group_keys keys -> k ∈ keys.
Proof.
  unfold group_keys. rewrite merge_sort_Permutation, elem_of_unique.
  by intros [_ ?]%list_elem_of_filter.
Qed.

Lemma groupby_agg_elem agg keys vals kv :
  kv ∈ groupby_agg agg keys vals ->
  kv.1 ∈ keys ∧
  kv.2 = agg (snd <$> filter (fun p => p.1 = kv.1) (zip keys vals)).
Proof.
  unfold groupby_agg. intros (k & -> & Hk)%list_elem_of_fmap. simpl.
  split; [by apply group_keys_elem|done].
Qed.

Lemma reindex_lookup labels ser i y :
  labels !! i = Some y ->
  reindex labels ser !! i = Some NaN
  ∨ exists kv, kv ∈ ser ∧ kv.1 = of_int y ∧ reindex labels ser !! i = Some kv.2.
Proof.
  intros Hy. unfold reindex. rewrite list_lookup_fmap, Hy. simpl.
  destruct (list_find _ ser) as [[n [k v]]|] eqn:Hf; [|by left].
  apply list_find_Some in Hf as (Hn & Hk & _). right. exists (k, v).
  split_and!; [by eapply list_elem_of_lookup_2|done|done].
Qed.

Lemma reindex_absent labels ser i y :
  labels !! i = Some y -> (forall kv, kv ∈ ser -> kv.1 ≠ of_int y) ->
  reindex labels ser !! i = Some NaN.
Proof.
  intros Hy Hno. destruct (reindex_lookup labels ser i y Hy) as [?|(kv & Hin & Hk & _)];
    [done|]. by apply Hno in Hin.
Qed.

Lemma length_reindex labels ser : length (reindex labels ser) = length labels.
Proof. unfold reindex. by rewrite length_fmap. Qed.

Lemma fsum_finite_from acc vs :
  Forall (fun x => exists q, x = Fin q) vs -> exists q, foldl fadd (Fin acc) vs = Fin q.
Proof.
  intros Hvs. revert acc. induction Hvs as [|x vs [q ->] _ IH]; intros acc; simpl; eauto.
Qed.

Lemma group_size_finite g : nan_or_finite (group_size g).
Proof. right. unfold group_size, of_int. eauto. Qed.

Lemma group_mean_finite g : Forall nan_or_finite g -> nan_or_finite (group_mean g).
Proof.
  intros Hg. unfold group_mean.
  set (vs := filter (fun x => isnan x = false) g).
  assert (Hvs : Forall (fun x => exists q, x = Fin q) vs).
  { apply Forall_forall. intros x [Hx Hin]%list_elem_of_filter.
    destruct (proj1 (Forall_forall _ _) Hg x Hin) as [->|?]; done. }
  destruct vs as [|v vs'] eqn:E; [by left|]. right.
  destruct (fsum_finite_from 0 (v :: vs') Hvs) as [q Hq].
  unfold fsum. rewrite Hq. unfold of_int, fdiv.
  rewrite decide_False; [eauto|].
  rewrite <- Z2Qc_inj_0. intros E'%Z2Qc_inj. simpl in E'. lia.
Qed.

Lemma reindex_finite (P : float64 -> Prop) labels agg keys vals :
  (forall g, Forall P g -> nan_or_finite (agg g)) ->
  Forall P vals ->
  Forall nan_or_finite (reindex labels (groupby_agg agg keys vals)).
Proof.
  intros Hagg Hvals. apply Forall_forall. intros x (i & Hi)%list_elem_of_lookup.
  pose proof (lookup_lt_Some _ _ _ Hi) as Hlt. rewrite length_reindex in Hlt.
  destruct (lookup_lt_is_Some_2 labels i Hlt) as [y Hy].
  destruct (reindex_lookup labels (groupby_agg agg keys vals) i y Hy)
    as [E|(kv & Hin & _ & E)]; rewrite E in Hi; injection Hi as <-; [by left|].
  apply groupby_agg_elem in Hin as [_ ->]. apply Hagg.
  apply Forall_forall. intros v ([k v'] & -> & [_ Hin]%list_elem_of_filter)%list_elem_of_fmap.
  apply elem_of_zip_r in Hin. simpl. by apply (proj1 (Forall_forall _ _) Hvals).
Qed.

End Interp.

Section YearlyClaim.
Context `{Externals}.

(** The shape of every yearly aggregate: position [i] holds the year
    [min_year + i].  A year without rows is missing after [reindex].  A
    missing year strictly between two years with a finite aggregate, with
    only missing years in between, gets the value on the straight line
    through the two.  Where a value is still missing after interpolation,
    and so filled with zero, no year at or before it has a value (with no
    infinite aggregate involved).  Missing years after the last value
    repeat that value, and a year with a value keeps it. *)
Lemma yearly_aggregate_shape (d : loaded) (m : metric) (ys : list float64) :
  reindexed d m = Ok ys ->
  exists out,
    yearly_data d m = Ok out ∧
    interpolated d m = Ok (interpolate ys) ∧
    length ys = length (all_years d) ∧ length out = length ys ∧
    (forall i v, out !! i = Some v -> v.1 = (l_min_year d + Z.of_nat i)%Z) ∧
    (forall ry keys i,
       get_col "release_year" (l_df d) = Ok ry -> as_floats ry = Ok keys ->
       (i < length ys)%nat -> of_int (l_min_year d + Z.of_nat i) ∉ keys ->
       ys !! i = Some NaN) ∧
    (forall j i k a b,
       (j < i < k)%nat -> ys !! j = Some (Fin a) -> ys !! k = Some (Fin b) ->
       (forall t, (j < t < k)%nat -> ys !! t = Some NaN) ->
       out !! i
       = Some ((l_min_year d + Z.of_nat i)%Z,
               Fin (a + (b - a) / (Qc_of_Z (Z.of_nat k) - Qc_of_Z (Z.of_nat j))
                        * (Qc_of_Z (Z.of_nat i) - Qc_of_Z (Z.of_nat j))))) ∧
    (forall i,
       Forall nan_or_finite ys -> interpolate ys !! i = Some NaN ->
       out !! i = Some ((l_min_year d + Z.of_nat i)%Z, Fin 0) ∧
       forall t, (t ≤ i)%nat -> ys !! t = Some NaN) ∧
    (forall j i v,
       (j < i < length ys)%nat -> ys !! j = Some v -> isnan v = false ->
       (forall t, (j < t < length ys)%nat -> ys !! t = Some NaN) ->
       out !! i = Some ((l_min_year d + Z.of_nat i)%Z, v)) ∧
    (forall i y, ys !! i = Some y -> isnan y = false ->
                 out !! i = Some ((l_min_year d + Z.of_nat i)%Z, y)) ∧
    (metric_column m = None -> Forall nan_or_finite ys) ∧
    (forall name c vals,
       metric_column m = Some name -> get_col name (l_df d) = Ok c ->
       as_floats c = Ok vals -> Forall nan_or_finite vals ->
       Forall nan_or_finite ys).
Proof.
  intros Hre. unfold yearly_data, interpolated. rewrite Hre. simpl.
  eexists. split; [done|]. split; [done|].
  assert (Hlen : length ys = length (all_years d)).
  { unfold reindexed in Hre. apply bind_Ok in Hre as (g & _ & [= <-]).
    apply length_reindex. }
  assert (Hyear : forall i, (i < length ys)%nat ->
                            all_years d !! i = Some (l_min_year d + Z.of_nat i)%Z).
  { intros i Hi. unfold all_years in *. rewrite length_seqZ in Hlen.
    apply lookup_seqZ. split; [done|]. lia. }
  assert (Hout : forall i v, interpolate ys !! i = Some v ->
            zip (all_years d) (fillna0 <$> interpolate ys) !! i
            = Some ((l_min_year d + Z.of_nat i)%Z, fillna0 v)).
  { intros i v Hv. pose proof (lookup_lt_Some _ _ _ Hv) as Hlt.
    rewrite length_interpolate in Hlt.
    apply lookup_zip_Some. rewrite list_lookup_fmap, Hv. split; [by apply Hyear|done]. }
  split_and!.
  - done.
  - rewrite length_zip, length_fmap, length_interpolate. lia.
  - intros i [y v] [Hy _]%lookup_zip_Some. simpl.
    pose proof (lookup_lt_Some _ _ _ Hy) as Hlt. rewrite <- Hlen in Hlt.
    rewrite Hyear in Hy by done. by injection Hy.
  - intros ry keys i Hry Hkeys Hi Hno. unfold reindexed, grouped in Hre.
    rewrite Hry in Hre. simpl in Hre. rewrite Hkeys in Hre. simpl in Hre.
    assert (Hser : exists ser, (forall kv, kv ∈ ser -> kv.1 ∈ keys)
                               ∧ ys = reindex (all_years d) ser).
    { destruct (metric_column m) as [name|].
      - apply bind_Ok in Hre as (g & Hg & [= <-]).
        apply bind_Ok in Hg as (c & _ & Hg). apply bind_Ok in Hg as (vals & _ & [= <-]).
        eexists. split; [|done]. by intros kv [? _]%groupby_agg_elem.
      - simpl in Hre. injection Hre as <-. eexists. split; [|done].
        by intros kv [? _]%groupby_agg_elem. }
    destruct Hser as (ser & Hkeys' & ->). rewrite length_reindex in Hi.
    eapply reindex_absent; [apply Hyear; by rewrite length_reindex|].
    intros kv Hkv E. apply Hno. rewrite <- E. by apply Hkeys'.
  - intros j i k a b Hi Hj Hk Hgap.
    rewrite (Hout i _ (interpolate_between ys j i k a b Hi Hj Hk Hgap)). done.
  - intros i Hfin Hnan. split; [by rewrite (Hout i NaN Hnan)|].
    intros t Ht. pose proof (lookup_lt_Some _ _ _ Hnan) as Hlt.
    rewrite length_interpolate in Hlt.
    destruct (lookup_lt_is_Some_2 ys t ltac:(lia)) as [v Hv].
    rewrite Hv. f_equal. by eapply interpolate_nan_leading.
  - intros j i v Hi Hj Hv Htail.
    rewrite (Hout i v (interpolate_trailing ys j i v Hi Hj Hv Htail)).
    unfold fillna0. by rewrite Hv.
  - intros i y Hy Hv. rewrite (Hout i y) by (by apply interpolate_valid).
    unfold fillna0. by rewrite Hv.
  - intros Hm. unfold reindexed, grouped in Hre. rewrite Hm in Hre.
    apply bind_Ok in Hre as (g & Hg & [= <-]).
    apply bind_Ok in Hg as (ry & _ & Hg). apply bind_Ok in Hg as (keys & _ & [= <-]).
    apply (reindex_finite (fun _ => True)).
    + intros g _. apply group_size_finite.
    + by apply Forall_forall.
  - intros name c vals Hm Hc Hvals Hfin. unfold reindexed, grouped in Hre.
    rewrite Hm in Hre. apply bind_Ok in Hre as (g & Hg & [= <-]).
    apply bind_Ok in Hg as (ry & _ & Hg). apply bind_Ok in Hg as (keys & _ & Hg).
    rewrite Hc in Hg. simpl in Hg. rewrite Hvals in Hg. injection Hg as <-.
    apply (reindex_finite nan_or_finite); [apply group_mean_finite|done].
Qed.

End YearlyClaim.

(** ** The claims at the sample table *)
Section AtSample.
#[local] Existing Instance Sample.externals.

Lemma sample_clean : clean Sample.raw = Ok (Sample.cleaned.1, Sample.cleaned.2).
Proof.
  unfold Sample.cleaned.
  destruct (clean Sample.raw) as [[df sk]|e] eqn:E; [reflexivity|].
  vm_compute in E. discriminate E.
Qed.

(** C1, counterexample: on the sample table the budget is skewed, and its
    companion [budget_log], a name ending in _log, is a feature column and
    an entry of the importance table. *)
Lemma log_companion_among_features :
  clean Sample.raw = Ok (Sample.cleaned.1, Sample.cleaned.2) ∧
  train Sample.cleaned.1 Sample.cleaned.2 = Ok (Sample.trained.1, Sample.trained.2) ∧
  ends_with "_log" "budget_log" = true ∧
  "budget_log" ∈ feature_cols (prepare Sample.cleaned.1 Sample.cleaned.2) ∧
  "budget_log" ∈ Sample.trained.1 ∧ "budget_log" ∈ Sample.trained.2.*1.
Proof.
  split; [exact sample_clean|]. split.
  { unfold Sample.trained.
    destruct (train _ _) as [[fs ser]|e] eqn:E; [reflexivity|].
    vm_compute in E. discriminate E. }
  split; [compute_done|]. split; [compute_done|]. split; compute_done.
Qed.

Lemma features_drop_sources_keep_companions_witness :
  clean Sample.raw = Ok (Sample.cleaned.1, Sample.cleaned.2) ∧
  (forall n, n ∈ columns Sample.raw -> ends_with "_log" n = false) ∧
  "budget" ∈ Sample.cleaned.2 ∧
  ("budget" ∉ feature_cols (prepare Sample.cleaned.1 Sample.cleaned.2)) ∧
  "budget" +:+ "_log" ∈ feature_cols (prepare Sample.cleaned.1 Sample.cleaned.2).
Proof.
  assert (Hc : clean Sample.raw = Ok (Sample.cleaned.1, Sample.cleaned.2)).
  { unfold Sample.cleaned.
    destruct (clean Sample.raw) as [[df sk]|e] eqn:E; [reflexivity|].
    vm_compute in E. discriminate E. }
  assert (Hp : forall n, n ∈ columns Sample.raw -> ends_with "_log" n = false).
  { apply (proj1 (Forall_forall (fun n => ends_with "_log" n = false) _)). compute_done. }
  assert (Hb : "budget" ∈ Sample.cleaned.2) by compute_done.
  pose proof (features_drop_sources_keep_companions _ _ _ Hc Hp) as (Hdrop & Hkeep & _).
  split; [exact Hc|]. split; [exact Hp|]. split; [exact Hb|]. split.
  - apply Hdrop. apply elem_of_app. right. exact Hb.
  - exact (Hkeep "budget" Hb).
Defined.

(** C2, counterexample: the second sample row has an empty genre list; in
    the cleaned table its genres cell is still the text of the empty list,
    and the cleaned table has no spoken-languages column. *)
Lemma cleaned_list_fields_stay_empty :
  clean Sample.raw = Ok (Sample.cleaned.1, Sample.cleaned.2) ∧
  (c ← get_col "genres" Sample.raw; Ok (cells c !! 1%nat)) = Ok (Some (CStr "[]")) ∧
  (c ← get_col "genres" Sample.cleaned.1; Ok (cells c !! 1%nat)) = Ok (Some (CStr "[]")) ∧
  literal_eval (CStr "[]") = Ok (CList []) ∧
  "spoken_languages" ∉ columns Sample.cleaned.1.
Proof.
  split; [exact sample_clean|]. split; [compute_done|]. split; [compute_done|].
  split; compute_done.
Qed.

Lemma list_fields_filled_on_load_witness :
  clean Sample.raw = Ok (Sample.cleaned.1, Sample.cleaned.2) ∧
  load Sample.cleaned.1 = Ok Sample.dash ∧
  exists c xs,
    get_col "genres" Sample.cleaned.1 = Ok c ∧
    mapM literal_eval (cells c) = Ok xs ∧
    get_col "genres" (l_df Sample.dash) = Ok (ObjCol (unknown_if_empty <$> xs)) ∧
    forall y, y ∈ unknown_if_empty <$> xs -> y ≠ CList [].
Proof.
  assert (Hc : clean Sample.raw = Ok (Sample.cleaned.1, Sample.cleaned.2)).
  { unfold Sample.cleaned.
    destruct (clean Sample.raw) as [[df sk]|e] eqn:E; [reflexivity|].
    vm_compute in E. discriminate E. }
  assert (Hl : load Sample.cleaned.1 = Ok Sample.dash).
  { unfold Sample.dash.
    destruct (load Sample.cleaned.1) as [d|e] eqn:E; [reflexivity|].
    vm_compute in E. discriminate E. }
  assert (Hin : "genres" ∈ list_columns) by compute_done.
  assert (Hcol : "genres" ∈ columns Sample.cleaned.1) by compute_done.
  pose proof (list_fields_filled_on_load _ _ _ Hc) as [_ Hload].
  pose proof (Hload _ _ Hl "genres" Hin Hcol) as (c & xs & H1 & H2 & H3 & H4 & _).
  split; [exact Hc|]. split; [exact Hl|]. exists c, xs.
  split; [exact H1|]. split; [exact H2|]. split; [exact H3|exact H4].
Defined.

Lemma roi_never_divides_by_zero_witness :
  clean Sample.raw = Ok (Sample.cleaned.1, Sample.cleaned.2) ∧
  exists rois,
    get_col "roi" Sample.cleaned.1 = Ok (FloatCol rois) ∧ rois !! 1%nat = Some NaN.
Proof.
  assert (Hc : clean Sample.raw = Ok (Sample.cleaned.1, Sample.cleaned.2)).
  { unfold Sample.cleaned.
    destruct (clean Sample.raw) as [[df sk]|e] eqn:E; [reflexivity|].
    vm_compute in E. discriminate E. }
  pose proof (roi_never_divides_by_zero _ _ _ Hc)
    as (bs & rs & rois & Hbs & Hrs & Hroi & Hrow).
  split; [exact Hc|]. exists rois. split; [exact Hroi|].
  assert (Eb : get_col "budget" (drop_duplicates Sample.raw) ≫= as_floats
               = Ok (of_int <$> [6300000; 0; 9300000; 15000000; 16000000; 165000000]%Z))
    by (vm_compute; reflexivity).
  assert (Er : get_col "revenue" (drop_duplicates Sample.raw) ≫= as_floats
               = Ok (of_int <$> [463517383; 274925095; 871368364; 738599701;
                                 825532764; 701729206]%Z))
    by (vm_compute; reflexivity).
  rewrite Eb in Hbs. rewrite Er in Hrs.
  apply (f_equal (fun r => match r with Ok l => l !! 1%nat | Raise _ => None end)) in Hbs, Hrs.
  cbn [fmap list_fmap lookup list_lookup] in Hbs, Hrs.
  pose proof (Hrow 1%nat (of_int 0) (of_int 274925095) (eq_sym Hbs) (eq_sym Hrs))
    as (_ & _ & Hzero & _).
  apply Hzero. left. apply of_int_zero. reflexivity.
Defined.

Lemma language_name_by_position_witness :
  clean Sample.raw = Ok (Sample.cleaned.1, Sample.cleaned.2) ∧
  exists ol,
    get_col "original_language" (drop_duplicates Sample.raw) = Ok ol ∧
    get_col "language_name" Sample.cleaned.1 = Ok (ObjCol (language_name (cells ol))) ∧
    NoDup (unique (cells ol)).
Proof.
  assert (Hc : clean Sample.raw = Ok (Sample.cleaned.1, Sample.cleaned.2)).
  { unfold Sample.cleaned.
    destruct (clean Sample.raw) as [[df sk]|e] eqn:E; [reflexivity|].
    vm_compute in E. discriminate E. }
  pose proof (language_name_by_position _ _ _ Hc) as (ol & H1 & H2 & H3 & _).
  split; [exact Hc|]. exists ol. split; [exact H1|]. split; [exact H2|exact H3].
Defined.

Lemma drop_duplicates_idempotent_witness :
  rectangular Sample.twins ∧ nrows Sample.twins = 2%nat ∧
  row Sample.twins 0 = row Sample.twins 1 ∧
  nrows (drop_duplicates (drop_duplicates Sample.twins))
  = nrows (drop_duplicates Sample.twins) ∧
  nrows (drop_duplicates Sample.twins) = 1%nat ∧
  exists df' sk, clean Sample.twins = Ok (df', sk) ∧ nrows df' = 1%nat.
Proof.
  assert (Hr : rectangular Sample.twins) by compute_done.
  assert (Hn : nrows Sample.twins = 2%nat) by compute_done.
  assert (Hrow : row Sample.twins 0 = row Sample.twins 1) by compute_done.
  pose proof (drop_duplicates_idempotent _ Hr) as (_ & Hcount & Htwo).
  pose proof (Htwo Hn Hrow) as [Hone Hclean].
  split; [exact Hr|]. split; [exact Hn|]. split; [exact Hrow|].
  split; [exact Hcount|]. split; [exact Hone|].
  destruct (clean Sample.twins) as [[df' sk]|e] eqn:E.
  - exists df', sk. split; [reflexivity|]. exact (Hclean df' sk eq_refl).
  - vm_compute in E. discriminate E.
Defined.

Lemma log_companion_total_witness :
  clean Sample.raw = Ok (Sample.cleaned.1, Sample.cleaned.2) ∧
  (forall n, n ∈ columns Sample.raw -> ends_with "_log" n = false) ∧
  enrich Sample.raw = Ok Sample.enriched ∧
  "budget" ∈ numeric_vars Sample.enriched ∧
  get_col "budget" Sample.enriched = Ok Sample.budget ∧
  col_skewed Sample.budget = true ∧
  exists xs,
    as_floats Sample.budget = Ok xs ∧
    get_col ("budget" +:+ "_log") Sample.cleaned.1 = Ok (FloatCol (log1p_clip <$> xs)) ∧
    forall x, x ∈ xs -> x ≠ NaN -> log1p_clip x ≠ NaN.
Proof.
  assert (Hc : clean Sample.raw = Ok (Sample.cleaned.1, Sample.cleaned.2)).
  { unfold Sample.cleaned.
    destruct (clean Sample.raw) as [[df sk]|e] eqn:E; [reflexivity|].
    vm_compute in E. discriminate E. }
  assert (Hp : forall n, n ∈ columns Sample.raw -> ends_with "_log" n = false).
  { apply (proj1 (Forall_forall (fun n => ends_with "_log" n = false) _)). compute_done. }
  assert (He : enrich Sample.raw = Ok Sample.enriched).
  { unfold Sample.enriched.
    destruct (enrich Sample.raw) as [df|e] eqn:E; [reflexivity|].
    vm_compute in E. discriminate E. }
  assert (Hg : get_col "budget" Sample.enriched = Ok Sample.budget).
  { unfold Sample.budget.
    destruct (get_col "budget" Sample.enriched) as [c|e] eqn:E; [reflexivity|].
    vm_compute in E. discriminate E. }
  assert (Hnum : "budget" ∈ numeric_vars Sample.enriched) by compute_done.
  assert (Hname : "budget" ∉ ["id"; "popularity"]) by compute_done.
  assert (Hsk : col_skewed Sample.budget = true) by compute_done.
  pose proof (log_companion_total _ _ _ Hc Hp) as (df1 & He1 & Hall).
  assert (Hdf1 : Ok df1 = Ok Sample.enriched) by (rewrite <- He1; exact He).
  apply (f_equal (fun r => match r with Ok d => d | Raise _ => df1 end)) in Hdf1.
  cbv beta iota in Hdf1. subst df1.
  pose proof (Hall "budget" Sample.budget Hnum Hname Hg Hsk) as (xs & Hxs & Hlog & Hdef).
  split; [exact Hc|]. split; [exact Hp|]. split; [exact He|]. split; [exact Hnum|].
  split; [exact Hg|]. split; [exact Hsk|].
  exists xs. split; [exact Hxs|]. split; [exact Hlog|].
  intros x Hx Hnan. exact (proj1 (proj2 (Hdef x Hx Hnan))).
Defined.

Lemma outstanding_at_most_30_witness :
  rtc Gate.step (Gate.State 30 [Gate.Waiting; Gate.Waiting])
      (Gate.State 29 [Gate.InFlight; Gate.Waiting]) ∧
  Gate.init [603; 129]%Z = Gate.State 30 [Gate.Waiting; Gate.Waiting] ∧
  (Gate.outstanding (Gate.State 29 [Gate.InFlight; Gate.Waiting]) ≤ 30)%nat.
Proof.
  assert (Hinit : Gate.init [603; 129]%Z = Gate.State 30 [Gate.Waiting; Gate.Waiting])
    by (vm_compute; reflexivity).
  assert (Hrun : rtc Gate.step (Gate.State 30 [Gate.Waiting; Gate.Waiting])
                     (Gate.State 29 [Gate.InFlight; Gate.Waiting])).
  { apply rtc_once.
    exact (Gate.step_enter 30 [Gate.Waiting; Gate.Waiting] 0 eq_refl (Nat.lt_0_succ 29)). }
  split; [exact Hrun|]. split; [exact Hinit|].
  rewrite <- Hinit in Hrun.
  exact (proj1 (GateFacts.outstanding_at_most_30 _ _ Hrun)).
Defined.

Lemma missing_raw_file_is_fatal_witness :
  files Sample.empty_world !! raw_file = None ∧
  load_and_process_data Sample.empty_world
  = (Raise FileNotFoundError,
     World (files Sample.empty_world)
           (log Sample.empty_world ++ [LogError ("File not found: " +:+ raw_file)])).
Proof.
  assert (Hnone : files Sample.empty_world !! raw_file = None) by (vm_compute; reflexivity).
  split; [exact Hnone|].
  exact (proj1 (missing_raw_file_is_fatal _ Hnone)).
Defined.

End AtSample.

(** ** The cleaner as a whole *)

Section CleanerRuns.
Context `{Externals}.







Lemma dt_field_DateCol f ds : exists c, dt_field f (DateCol ds) = Ok c.
Proof. simpl. eauto. Qed.





















End CleanerRuns.


(** ** The trainer *)






Section TrainerFacts.
Context `{Externals}.



Lemma rectangular_drop_columns names df :
  rectangular df -> rectangular (drop_columns names df).
Proof.
  intros Hr. pose proof (height_drop_columns _ names _ Hr) as Hh.
  destruct (drop_columns names df) as [|nc d] eqn:Hd; [constructor|].
  unfold rectangular. rewrite <- Hd in *. erewrite height_nrows; [done..|].
  by rewrite Hd.
Qed.


End TrainerFacts.

(** ** Orders on floats *)




Lemma StronglySorted_lookup {A} (R : relation A) (l : list A) i j a b :
  StronglySorted R l -> (i < j)%nat -> l !! i = Some a -> l !! j = Some b -> R a b.
Proof.
  intros Hs. revert i j. induction Hs as [|x l Hs IH Hall]; intros i j Hij Hi Hj; [done|].
  destruct j as [|j]; [lia|]. simpl in Hj. destruct i as [|i]; simpl in Hi.
  - injection Hi as <-. rewrite Forall_forall in Hall. apply Hall.
    by eapply list_elem_of_lookup_2.
  - apply (IH i j); [lia|done..].
Qed.

Section TrainerRuns.
Context `{Externals}.



End TrainerRuns.

(** ** The year range of the dashboard *)










Section DashboardFacts.
Context `{Externals}.







End DashboardFacts.

(** ** The selected range *)




Section Selection.
Context `{Externals}.



End Selection.

Section YearFilter.
Context `{Externals}.






End YearFilter.

(** ** Interpolated values stay between their neighbours *)







Section ReleaseCounts.
Context `{Externals}.

Lemma elem_of_group_keys keys k : k ∈ keys -> isnan k = false -> k ∈ group_keys keys.
Proof.
  intros Hk Hn. unfold group_keys. rewrite merge_sort_Permutation, elem_of_unique.
  by apply list_elem_of_filter.
Qed.

(** The value [reindex] finds for a year that has rows. *)
Lemma reindex_present labels agg keys vals i y :
  labels !! i = Some y -> of_int y ∈ keys ->
  reindex labels (groupby_agg agg keys vals) !! i
  = Some (agg (snd <$> filter (fun kv => kv.1 = of_int y) (zip keys vals))).
Proof.
  intros Hy Hin. unfold reindex. rewrite list_lookup_fmap, Hy. simpl. f_equal.
  destruct (list_find _ _) as [[n [k v]]|] eqn:Hf.
  - apply list_find_Some in Hf as (Hn & Hk & _). simpl in Hk. subst k.
    apply list_elem_of_lookup_2, groupby_agg_elem in Hn as [_ Hv]. done.
  - apply list_find_None in Hf. rewrite Forall_forall in Hf. exfalso.
    apply (Hf (of_int y, agg (snd <$> filter (fun kv => kv.1 = of_int y) (zip keys vals))));
      [|done].
    unfold groupby_agg. apply list_elem_of_fmap. exists (of_int y). split; [done|].
    by apply elem_of_group_keys.
Qed.

Lemma group_size_bounds keys k :
  k ∈ keys ->
  exists q, group_size (snd <$> filter (fun kv => kv.1 = k) (zip keys keys)) = Fin q ∧
            1 ≤ q ∧ q ≤ Qc_of_Z (Z.of_nat (length keys)).
Proof.
  intros Hk. unfold group_size, of_int. eexists. split; [done|].
  set (g := filter (fun kv => kv.1 = k) (zip keys keys)).
  assert (Hin : (k, k) ∈ g).
  { apply list_elem_of_filter. split; [done|].
    apply list_elem_of_lookup in Hk as [i Hi]. apply (list_elem_of_lookup_2 _ i).
    by apply lookup_zip_Some. }
  assert (Hlen : (1 ≤ length g ≤ length keys)%nat).
  { split.
    - destruct g; [by apply elem_of_nil in Hin|simpl; lia].
    - unfold g. etrans; [apply length_filter|]. rewrite length_zip. lia. }
  rewrite length_fmap, <- Z2Qc_inj_1. split; apply (proj1 (Z2Qc_inj_le _ _)); lia.
Qed.


(** A year of the range with rows has a release count of at least 1. *)
Lemma release_count_present (d : loaded) (ys : list float64) ry keys i :
  reindexed d Releases = Ok ys ->
  get_col "release_year" (l_df d) = Ok ry -> as_floats ry = Ok keys ->
  (i < length ys)%nat -> of_int (l_min_year d + Z.of_nat i) ∈ keys ->
  exists q, ys !! i = Some (Fin q) ∧ 1 ≤ q.
Proof.
  intros Hre Hry Hkeys Hi Hin. unfold reindexed, grouped in Hre.
  rewrite Hry in Hre. cbn [mbind result_bind] in Hre.
  rewrite Hkeys in Hre. cbn [mbind result_bind metric_column] in Hre.
  injection Hre as <-. rewrite length_reindex in Hi.
  assert (Hy : all_years d !! i = Some (l_min_year d + Z.of_nat i)%Z).
  { unfold all_years in *. apply lookup_seqZ. rewrite length_seqZ in Hi. lia. }
  rewrite (reindex_present _ _ _ _ _ _ Hy Hin).
  destruct (group_size_bounds keys _ Hin) as (q & -> & Hq & _). by exists q.
Qed.

(** C4: in every yearly aggregate a year without rows is missing after
    [reindex], and a missing year strictly between two years with a finite
    aggregate, with only missing years in between, gets the value on the
    straight line through the two.  For the release counts every year with
    rows has a count of at least 1: a year without rows between two years
    with rows gets the value on the straight line through the counts of
    the nearest years with rows on either side, and zero is filled only
    where no year at or before has rows.  For the averaged series a year
    whose rows all lack the value is missing too: zero is filled only where
    no year at or before has a value, and missing years after the last
    value repeat that value. *)
Theorem missing_years_interpolated (d : loaded) (m : metric) (ys : list float64) :
  reindexed d m = Ok ys ->
  exists out,
    yearly_data d m = Ok out ∧
    interpolated d m = Ok (interpolate ys) ∧
    length ys = length (all_years d) ∧ length out = length ys ∧
    (forall i v, out !! i = Some v -> v.1 = (l_min_year d + Z.of_nat i)%Z) ∧
    (forall ry keys i,
       get_col "release_year" (l_df d) = Ok ry -> as_floats ry = Ok keys ->
       (i < length ys)%nat -> of_int (l_min_year d + Z.of_nat i) ∉ keys ->
       ys !! i = Some NaN) ∧
    (forall j i k a b,
       (j < i < k)%nat -> ys !! j = Some (Fin a) -> ys !! k = Some (Fin b) ->
       (forall t, (j < t < k)%nat -> ys !! t = Some NaN) ->
       out !! i
       = Some ((l_min_year d + Z.of_nat i)%Z,
               Fin (a + (b - a) / (Qc_of_Z (Z.of_nat k) - Qc_of_Z (Z.of_nat j))
                        * (Qc_of_Z (Z.of_nat i) - Qc_of_Z (Z.of_nat j))))) ∧
    (forall i,
       Forall nan_or_finite ys -> interpolate ys !! i = Some NaN ->
       out !! i = Some ((l_min_year d + Z.of_nat i)%Z, Fin 0) ∧
       forall t, (t ≤ i)%nat -> ys !! t = Some NaN) ∧
    (forall j i v,
       (j < i < length ys)%nat -> ys !! j = Some v -> isnan v = false ->
       (forall t, (j < t < length ys)%nat -> ys !! t = Some NaN) ->
       out !! i = Some ((l_min_year d + Z.of_nat i)%Z, v)) ∧
    (forall i y, ys !! i = Some y -> isnan y = false ->
                 out !! i = Some ((l_min_year d + Z.of_nat i)%Z, y)) ∧
    (metric_column m = None -> Forall nan_or_finite ys) ∧
    (forall name c vals,
       metric_column m = Some name -> get_col name (l_df d) = Ok c ->
       as_floats c = Ok vals -> Forall nan_or_finite vals ->
       Forall nan_or_finite ys) ∧
    (m = Releases ->
     forall ry keys,
       get_col "release_year" (l_df d) = Ok ry -> as_floats ry = Ok keys ->
       (forall i,
          (i < length ys)%nat -> of_int (l_min_year d + Z.of_nat i) ∈ keys ->
          exists q, ys !! i = Some (Fin q) ∧ 1 ≤ q ∧
                    out !! i = Some ((l_min_year d + Z.of_nat i)%Z, Fin q)) ∧
       (forall j i k,
          (j < i < k)%nat -> (k < length ys)%nat ->
          of_int (l_min_year d + Z.of_nat j) ∈ keys ->
          of_int (l_min_year d + Z.of_nat k) ∈ keys ->
          (forall t, (j < t < k)%nat -> of_int (l_min_year d + Z.of_nat t) ∉ keys) ->
          exists a b,
            ys !! j = Some (Fin a) ∧ ys !! k = Some (Fin b) ∧ 1 ≤ a ∧ 1 ≤ b ∧
            ys !! i = Some NaN ∧
            out !! i
            = Some ((l_min_year d + Z.of_nat i)%Z,
                    Fin (a + (b - a) / (Qc_of_Z (Z.of_nat k) - Qc_of_Z (Z.of_nat j))
                             * (Qc_of_Z (Z.of_nat i) - Qc_of_Z (Z.of_nat j))))) ∧
       (forall i,
          interpolate ys !! i = Some NaN ->
          out !! i = Some ((l_min_year d + Z.of_nat i)%Z, Fin 0) ∧
          forall t, (t ≤ i)%nat -> of_int (l_min_year d + Z.of_nat t) ∉ keys)).
Proof.
  intros Hre.
  destruct (yearly_aggregate_shape d m ys Hre)
    as (out & H1 & H2 & H3 & H4 & H5 & H6 & H7 & H8 & H9 & H10 & H11 & H12).
  exists out. split_and!; [exact H1|exact H2|exact H3|exact H4|exact H5|exact H6|exact H7
                          |exact H8|exact H9|exact H10|exact H11|exact H12|].
  intros -> ry keys Hry Hkeys.
  assert (Hpresent : forall i, (i < length ys)%nat ->
            of_int (l_min_year d + Z.of_nat i) ∈ keys ->
            exists q, ys !! i = Some (Fin q) ∧ 1 ≤ q).
  { intros i. by apply release_count_present with ry. }
  split_and!.
  - intros i Hi Hin. destruct (Hpresent i Hi Hin) as (q & Hq & Hq1).
    exists q. split_and!; [done..|]. by apply H10.
  - intros j i k Hjik Hk Hj' Hk' Hgap.
    destruct (Hpresent j ltac:(lia) Hj') as (a & Ha & Ha1).
    destruct (Hpresent k Hk Hk') as (b & Hb & Hb1).
    assert (Hnan : forall t, (j < t < k)%nat -> ys !! t = Some NaN).
    { intros t Ht. apply (H6 ry keys); [done..|lia|by apply Hgap]. }
    exists a, b. split_and!; [done..|by apply Hnan|by apply H7].
  - intros i Hi. destruct (H8 i (H11 eq_refl) Hi) as [Hzero Hlead].
    split; [done|]. intros t Ht Hin.
    pose proof (lookup_lt_Some _ _ _ Hi) as Hlt. rewrite length_interpolate in Hlt.
    destruct (Hpresent t ltac:(lia) Hin) as (q & Hq & _).
    rewrite (Hlead t Ht) in Hq. discriminate.
Qed.

End ReleaseCounts.

(** ** Counting *)




Lemma count_ge_total : Total count_ge.
Proof. intros a b. unfold count_ge. lia. Qed.

Lemma count_ge_trans : Transitive count_ge.
Proof. intros a b c. unfold count_ge. lia. Qed.

Lemma value_counts_Permutation xs :
  value_counts xs
  ≡ₚ (fun v => (v, length (filter (fun x => x = v)
                             (filter (fun x => cell_isna x = false) xs))))
     <$> unique (filter (fun x => cell_isna x = false) xs).
Proof. unfold value_counts. apply merge_sort_Permutation. Qed.




Section Pies.
Context `{Externals}.


(** What [value_counts] returns: one entry per distinct non-missing value
    with its number of occurrences, no count zero, largest count first. *)
Lemma value_counts_spec (xs : list cell) :
  NoDup (value_counts xs).*1 ∧
  (forall v n, (v, n) ∈ value_counts xs <->
     v ∈ xs ∧ cell_isna v = false ∧ n = length (filter (fun x => x = v) xs)) ∧
  (forall v n, (v, n) ∈ value_counts xs -> (0 < n)%nat) ∧
  (forall a b, a ∈ take top_n (value_counts xs) -> b ∈ drop top_n (value_counts xs) ->
     (b.2 ≤ a.2)%nat) ∧
  (forall i j a b, (i < j)%nat ->
     value_counts xs !! i = Some a -> value_counts xs !! j = Some b -> (b.2 ≤ a.2)%nat).
Proof.
  set (vs := filter (fun x => cell_isna x = false) xs).
  assert (Hcount : forall v, cell_isna v = false ->
    length (filter (fun x => x = v) vs) = length (filter (fun x => x = v) xs)).
  { intros v Hv. unfold vs. rewrite list_filter_filter. f_equal.
    apply list_filter_iff. intros x. split; [tauto|]. by intros ->. }
  assert (Hmem : forall v n, (v, n) ∈ value_counts xs <->
     v ∈ xs ∧ cell_isna v = false ∧ n = length (filter (fun x => x = v) xs)).
  { intros v n. rewrite value_counts_Permutation, list_elem_of_fmap. fold vs. split.
    - intros (u & [= -> ->] & Hu). rewrite elem_of_unique in Hu.
      apply list_elem_of_filter in Hu as [Hna Hin]. by rewrite Hcount.
    - intros (Hin & Hna & ->). exists v. rewrite Hcount by done. split; [done|].
      apply elem_of_unique. by apply list_elem_of_filter. }
  assert (Hsorted : StronglySorted count_ge (value_counts xs)).
  { unfold value_counts. apply StronglySorted_merge_sort;
      [apply count_ge_trans|apply count_ge_total]. }
  split_and!.
  - rewrite value_counts_Permutation, <- list_fmap_compose. simpl.
    rewrite list_fmap_id. apply NoDup_unique.
  - exact Hmem.
  - intros v n (Hin & _ & ->)%Hmem.
    assert (Hv : v ∈ filter (fun x => x = v) xs) by by apply list_elem_of_filter.
    apply list_elem_of_lookup in Hv as [i Hi]. apply lookup_lt_Some in Hi. lia.
  - intros a b Ha Hb. rewrite <- (take_drop top_n (value_counts xs)) in Hsorted.
    apply (StronglySorted_app_1_elem_of _ _ _ _ _ Hsorted Ha Hb).
  - intros i j a b Hij Hi Hj. apply (StronglySorted_lookup _ _ _ _ _ _ Hsorted Hij Hi Hj).
Qed.

(** The chart data built from the values of one column. *)
Lemma with_other_value_counts (values : list cell) :
  let counts := value_counts values in
  exists n,
    with_other counts = take 8 counts ++ [(CStr "Other", n)] ∧
    last (with_other counts) = Some (CStr "Other", n) ∧
    n = foldr Nat.add 0%nat (drop 8 counts).*2 ∧
    length (with_other counts)
    = (length (unique (filter (fun x => cell_isna x = false) values)) `min` 8 + 1)%nat ∧
    ((length (unique (filter (fun x => cell_isna x = false) values)) ≤ 8)%nat ->
     n = 0%nat ∧ with_other counts = counts ++ [(CStr "Other", 0%nat)]) ∧
    NoDup counts.*1 ∧
    (forall v k, (v, k) ∈ counts <->
       v ∈ values ∧ cell_isna v = false ∧ k = length (filter (fun x => x = v) values)) ∧
    (forall a b, a ∈ take 8 counts -> b ∈ drop 8 counts -> (b.2 ≤ a.2)%nat).
Proof.
  intros counts.
  destruct (with_other_shape counts) as (n & H1 & H2 & H3 & H4 & H5).
  destruct (value_counts_spec values) as (Hnd & Hmem & _ & Htop & _).
  pose proof (length_value_counts values) as Hlen. fold counts in Hlen.
  unfold top_n in *. exists n. split_and!; try done.
  - by rewrite H3, Hlen.
  - intros Hle. rewrite <- Hlen in Hle. split; [by apply H5|].
    rewrite H1, take_ge by done. by rewrite (H5 Hle).
Qed.

(** C10: for every filtered table that has the column, the genre pie is
    built from the exploded [genres] column and the language pie from
    [language_name]: the entries of [value_counts] with the eight largest
    counts, each distinct non-missing value with its number of occurrences,
    followed by exactly one "Other" entry holding the sum of the remaining
    counts.  The "Other" entry is always the last one; with at most eight
    distinct categories nothing remains, every category is shown and
    "Other" is still there with count 0.  The charts raise only when the
    column is absent. *)
Theorem other_slice_always_appended (filtered_df : frame) :
  (forall g, get_col "genres" filtered_df = Ok g ->
     let values := explode (cells g) in
     let counts := value_counts values in
     exists pie n,
       pie_data filtered_df = Ok pie ∧
       pie = take 8 counts ++ [(CStr "Other", n)] ∧
       last pie = Some (CStr "Other", n) ∧
       n = foldr Nat.add 0%nat (drop 8 counts).*2 ∧
       length pie
       = (length (unique (filter (fun x => cell_isna x = false) values)) `min` 8 + 1)%nat ∧
       ((length (unique (filter (fun x => cell_isna x = false) values)) ≤ 8)%nat ->
        n = 0%nat ∧ pie = counts ++ [(CStr "Other", 0%nat)]) ∧
       NoDup counts.*1 ∧
       (forall v k, (v, k) ∈ counts <->
          v ∈ values ∧ cell_isna v = false ∧ k = length (filter (fun x => x = v) values)) ∧
       (forall a b, a ∈ take 8 counts -> b ∈ drop 8 counts -> (b.2 ≤ a.2)%nat)) ∧
  (forall l, get_col "language_name" filtered_df = Ok l ->
     let values := cells l in
     let counts := value_counts values in
     exists pie n,
       pie_lang filtered_df = Ok pie ∧
       pie = take 8 counts ++ [(CStr "Other", n)] ∧
       last pie = Some (CStr "Other", n) ∧
       n = foldr Nat.add 0%nat (drop 8 counts).*2 ∧
       length pie
       = (length (unique (filter (fun x => cell_isna x = false) values)) `min` 8 + 1)%nat ∧
       ((length (unique (filter (fun x => cell_isna x = false) values)) ≤ 8)%nat ->
        n = 0%nat ∧ pie = counts ++ [(CStr "Other", 0%nat)]) ∧
       NoDup counts.*1 ∧
       (forall v k, (v, k) ∈ counts <->
          v ∈ values ∧ cell_isna v = false ∧ k = length (filter (fun x => x = v) values)) ∧
       (forall a b, a ∈ take 8 counts -> b ∈ drop 8 counts -> (b.2 ≤ a.2)%nat)) ∧
  (forall pie, pie_data filtered_df = Ok pie ->
     exists g, get_col "genres" filtered_df = Ok g ∧
               pie = with_other (value_counts (explode (cells g)))) ∧
  (forall pie, pie_lang filtered_df = Ok pie ->
     exists l, get_col "language_name" filtered_df = Ok l ∧
               pie = with_other (value_counts (cells l))) ∧
  (forall e, pie_data filtered_df = Raise e -> get_col "genres" filtered_df = Raise e) ∧
  (forall e, pie_lang filtered_df = Raise e -> get_col "language_name" filtered_df = Raise e).
Proof.
  split_and!.
  - intros g Hg values counts.
    destruct (with_other_value_counts values) as (n & H1 & H2 & H3 & H4 & H5 & H6 & H7 & H8).
    exists (with_other counts), n. unfold pie_data. rewrite Hg.
    split; [reflexivity|].
    split_and!; [exact H1|exact H2|exact H3|exact H4|exact H5|exact H6|exact H7|exact H8].
  - intros l Hl values counts.
    destruct (with_other_value_counts values) as (n & H1 & H2 & H3 & H4 & H5 & H6 & H7 & H8).
    exists (with_other counts), n. unfold pie_lang. rewrite Hl.
    split; [reflexivity|].
    split_and!; [exact H1|exact H2|exact H3|exact H4|exact H5|exact H6|exact H7|exact H8].
  - unfold pie_data. intros pie (g & Hg & [= <-])%bind_Ok. by exists g.
  - unfold pie_lang. intros pie (l & Hl & [= <-])%bind_Ok. by exists l.
  - unfold pie_data. intros e. destruct (get_col "genres" filtered_df); cbn [mbind result_bind]; congruence.
  - unfold pie_lang. intros e. destruct (get_col "language_name" filtered_df); cbn [mbind result_bind]; congruence.
Qed.

End Pies.

(** *** Runs of the gate *)

Module GateRuns.
Import Gate GateFacts.









End GateRuns.

(** ** The fetcher *)

Module FetcherFacts.
Import Fetcher.














End FetcherFacts.

(** ** The further properties at the sample table *)
Section FurtherAtSample.
#[local] Existing Instance Sample.externals.




















(** C4, counterexample: a year without rows between two years with rows is
    not always interpolated.  With movies in 2000 and 2002 only, when the
    revenue of the movie of 2000 is missing the average revenue of 2001 is
    filled with zero although 2001 is no edge year; when the revenue of the
    movie of 2002 is missing, 2001 and 2002 repeat the value of 2000 and
    nothing is filled with zero. *)
Lemma zero_fill_between_years_with_rows :
  load Sample.unsold_first = Ok Sample.unsold_first_dash ∧
  get_col "release_year" (l_df Sample.unsold_first_dash) ≫= as_floats
  = Ok (of_int <$> [2000; 2002]%Z) ∧
  all_years Sample.unsold_first_dash = [2000; 2001; 2002]%Z ∧
  reindexed Sample.unsold_first_dash Revenue = Ok [NaN; NaN; of_int 5] ∧
  yearly_data Sample.unsold_first_dash Revenue
  = Ok [(2000%Z, Fin 0); (2001%Z, Fin 0); (2002%Z, of_int 5)] ∧
  load Sample.unsold_last = Ok Sample.unsold_last_dash ∧
  get_col "release_year" (l_df Sample.unsold_last_dash) ≫= as_floats
  = Ok (of_int <$> [2000; 2002]%Z) ∧
  all_years Sample.unsold_last_dash = [2000; 2001; 2002]%Z ∧
  reindexed Sample.unsold_last_dash Revenue = Ok [of_int 7; NaN; NaN] ∧
  yearly_data Sample.unsold_last_dash Revenue
  = Ok [(2000%Z, of_int 7); (2001%Z, of_int 7); (2002%Z, of_int 7)].
Proof.
  split_and!; compute_done.
Qed.

Lemma sample_genres : get_col "genres" (l_df Sample.dash) = Ok Sample.genres.
Proof.
  unfold Sample.genres.
  destruct (get_col "genres" (l_df Sample.dash)) as [c|e] eqn:E; [reflexivity|].
  vm_compute in E. discriminate E.
Qed.

Lemma other_slice_always_appended_witness :
  get_col "genres" (l_df Sample.dash) = Ok Sample.genres ∧
  length (unique (filter (fun x => cell_isna x = false)
                    (explode (cells Sample.genres)))) = 6%nat ∧
  exists pie,
    pie_data (l_df Sample.dash) = Ok pie ∧
    pie = value_counts (explode (cells Sample.genres)) ++ [(CStr "Other", 0%nat)] ∧
    last pie = Some (CStr "Other", 0%nat) ∧
    length pie = 7%nat.
Proof.
  assert (Hsix : length (unique (filter (fun x => cell_isna x = false)
                                   (explode (cells Sample.genres)))) = 6%nat).
  { vm_compute. reflexivity. }
  split; [exact sample_genres|]. split; [exact Hsix|].
  pose proof (proj1 (other_slice_always_appended (l_df Sample.dash)) _ sample_genres) as Hw.
  cbv zeta in Hw.
  destruct Hw as (pie & n & Hp & _ & Hlast & _ & Hlen & Hzero & _).
  rewrite Hsix in Hlen, Hzero.
  destruct Hzero as [-> Hpie]; [lia|].
  exists pie. split; [exact Hp|]. split; [exact Hpie|]. split; [exact Hlast|].
  exact Hlen.
Defined.

Lemma missing_years_interpolated_witness :
  reindexed Sample.dash Releases = Ok Sample.release_counts ∧
  Sample.release_counts !! 0%nat = Some (Fin 1) ∧
  Sample.release_counts !! 1%nat = Some NaN ∧
  Sample.release_counts !! 2%nat = Some (Fin 2) ∧
  exists out,
    yearly_data Sample.dash Releases = Ok out ∧
    out !! 1%nat
    = Some ((l_min_year Sample.dash + Z.of_nat 1)%Z,
            Fin (1 + (2 - 1) / (Qc_of_Z (Z.of_nat 2) - Qc_of_Z (Z.of_nat 0))
                     * (Qc_of_Z (Z.of_nat 1) - Qc_of_Z (Z.of_nat 0)))).
Proof.
  assert (Hre : reindexed Sample.dash Releases = Ok Sample.release_counts).
  { unfold Sample.release_counts.
    destruct (reindexed Sample.dash Releases) as [ys|e] eqn:E; [reflexivity|].
    vm_compute in E. discriminate E. }
  assert (H0 : Sample.release_counts !! 0%nat = Some (Fin 1)) by compute_done.
  assert (H1 : Sample.release_counts !! 1%nat = Some NaN) by compute_done.
  assert (H2 : Sample.release_counts !! 2%nat = Some (Fin 2)) by compute_done.
  pose proof (missing_years_interpolated _ _ _ Hre)
    as (out & Hout & _ & _ & _ & _ & _ & Hmid & _).
  split; [exact Hre|]. split; [exact H0|]. split; [exact H1|]. split; [exact H2|].
  exists out. split; [exact Hout|].
  apply (Hmid 0%nat 1%nat 2%nat 1 2); [lia|exact H0|exact H2|].
  intros t Ht. assert (t = 1%nat) as -> by lia. exact H1.
Defined.

End FurtherAtSample.



